(** * Web_Monitor: the keyword check, the seen-matches store and the polling loop

    A shallow embedding of [web-monitor.py] (class [WebMonitor]) and the
    properties of its matching, deduplication and back-off logic.

    Python [str] values are modelled as Rocq strings, that is sequences of
    code points below 256; on that range [str.lower] works character by
    character and [str.isspace] holds of the code points 9-13, 28-32, 133
    and 160.  Python integers are unbounded and are modelled by [Z]. *)

From Stdlib Require Import ZArith NArith Ascii String Bool Lia.
From stdpp Require Import base decidable list sets gmap strings.

Local Open Scope Z_scope.

#[local] Set Warnings "-clear-no-such-hyp".

(** ** Python string operations used by the monitor *)

Module PyStr.

(** [c.isspace()] for a single character. *)
Definition is_space (c : ascii) : bool :=
  let n := N_of_ascii c in
  (((9 <=? n) && (n <=? 13)) || ((28 <=? n) && (n <=? 32))
   || (n =? 133) || (n =? 160))%N.

(** [c.lower()] for a single character: A-Z and the Latin-1 capitals
    (192-222 except the multiplication sign 215) move up by 32. *)
Definition lower_char (c : ascii) : ascii :=
  let n := N_of_ascii c in
  if ((((65 <=? n) && (n <=? 90))
       || ((192 <=? n) && (n <=? 222) && negb (n =? 215))))%N
  then ascii_of_N (n + 32) else c.

(** [s.lower()] *)
Fixpoint lower (s : string) : string :=
  match s with
  | EmptyString => EmptyString
  | String c s' => String (lower_char c) (lower s')
  end.

(** [s.startswith(p)] *)
Fixpoint startswith (p s : string) : bool :=
  match p, s with
  | EmptyString, _ => true
  | String _ _, EmptyString => false
  | String a p', String b s' => if decide (a = b) then startswith p' s' else false
  end.

(** [sub in s]: substring containment. *)
Fixpoint contains (sub s : string) : bool :=
  startswith sub s ||
  match s with
  | EmptyString => false
  | String _ s' => contains sub s'
  end.

(** [s.split()] with no argument: the maximal runs of non-whitespace
    characters.  [cur] is the run being read. *)
Fixpoint split_go (cur s : string) : list string :=
  match s with
  | EmptyString => match cur with EmptyString => [] | _ => [cur] end
  | String c s' =>
      if is_space c
      then match cur with
           | EmptyString => split_go EmptyString s'
           | _ => cur :: split_go EmptyString s'
           end
      else split_go (cur +:+ String c EmptyString) s'
  end.

Definition split (s : string) : list string := split_go EmptyString s.

(** [sep.join(l)] *)
Fixpoint join (sep : string) (l : list string) : string :=
  match l with
  | [] => EmptyString
  | [w] => w
  | w :: ws => w +:+ sep +:+ join sep ws
  end.

(** [s.lstrip()], [s.rstrip()] and [s.strip()] with no argument. *)
Fixpoint lstrip (s : string) : string :=
  match s with
  | EmptyString => EmptyString
  | String c s' => if is_space c then lstrip s' else s
  end.

Fixpoint rstrip (s : string) : string :=
  match s with
  | EmptyString => EmptyString
  | String c s' =>
      match rstrip s' with
      | EmptyString => if is_space c then EmptyString else String c EmptyString
      | r => String c r
      end
  end.

Definition strip (s : string) : string := rstrip (lstrip s).

(** [s.split(sep)] for a one-character separator: never empty, and it
    keeps empty fields. *)
Fixpoint split_on (sep : ascii) (s : string) : list string :=
  match s with
  | EmptyString => [EmptyString]
  | String c s' =>
      if decide (c = sep) then EmptyString :: split_on sep s'
      else match split_on sep s' with
           | w :: ws => String c w :: ws
           | [] => [String c EmptyString]
           end
  end.

(** Truth value of a string: the empty string is falsy. *)
Definition truthy (s : string) : bool :=
  match s with EmptyString => false | _ => true end.

End PyStr.

(** [s[:n]] for a non-negative [n]. *)
Fixpoint str_take (n : nat) (s : string) : string :=
  match n, s with
  | S n', String c s' => String c (str_take n' s')
  | _, _ => EmptyString
  end.

Definition newline : ascii := ascii_of_N 10.
Definition nl : string := String newline EmptyString.

(** ** Exceptions, state and effects

    Code that may raise returns an [outcome].  A computation threads the
    monitor's mutable state and emits the effects it performs, in order;
    state changes and effects made before a [raise] are kept, as in
    Python. *)

Inductive exn : Type :=
  | OSError
  | JSONDecodeError
  | ParserError
  | IndexError
  | RuntimeError.

Inductive outcome (A : Type) : Type :=
  | Return (a : A)
  | Raise (e : exn).
Arguments Return {A} a.
Arguments Raise {A} e.

(** The record at [seen_matches_file]: missing, holding a JSON list of
    strings (read back as a set), or holding content on which
    [set(json.load(f))] raises. *)
Inductive file_state : Type :=
  | Absent
  | Stored (elems : gset string)
  | Malformed.

Inductive log_level : Type := LvlError | LvlWarning | LvlInfo.

Inductive event : Type :=
  | EvLog (lvl : log_level)
  | EvSave (elems : gset string) (ok : bool)
  | EvSend (title body : string) (ok : bool)
  | EvSleep (secs : Z).

(** [self.seen_matches], the file behind it, and the loop's local
    [consecutive_errors]. *)
Record state : Type := mkState {
  seen_matches : gset string;
  seen_matches_file : file_state;
  consecutive_errors : Z
}.

(** The configuration fields the loop reads. *)
Record config : Type := mkConfig {
  url : string;
  search_strings : list string;
  check_interval : Z
}.

Definition M (A : Type) : Type := state -> outcome A * state * list event.

Definition ret {A} (a : A) : M A := fun st => (Return a, st, []).

Definition bind {A B} (m : M A) (k : A -> M B) : M B :=
  fun st =>
    match m st with
    | (Return a, st1, ev1) =>
        match k a st1 with
        | (r, st2, ev2) => (r, st2, ev1 ++ ev2)
        end
    | (Raise e, st1, ev1) => (Raise e, st1, ev1)
    end.

Definition raise {A} (e : exn) : M A := fun st => (Raise e, st, []).

(** [try: body  except Exception as e: handler] *)
Definition try_except {A} (body : M A) (handler : exn -> M A) : M A :=
  fun st =>
    match body st with
    | (Return a, st1, ev1) => (Return a, st1, ev1)
    | (Raise e, st1, ev1) =>
        match handler e st1 with
        | (r, st2, ev2) => (r, st2, ev1 ++ ev2)
        end
    end.

Definition get : M state := fun st => (Return st, st, []).
Definition emit (e : event) : M unit := fun st => (Return tt, st, [e]).

Definition set_seen (s : gset string) : M unit :=
  fun st => (Return tt, mkState s (seen_matches_file st) (consecutive_errors st), []).
Definition set_file (f : file_state) : M unit :=
  fun st => (Return tt, mkState (seen_matches st) f (consecutive_errors st), []).
Definition set_errors (n : Z) : M unit :=
  fun st => (Return tt, mkState (seen_matches st) (seen_matches_file st) n, []).

Notation "x <- m ;; k" := (bind m (fun x => k))
  (at level 100, m at next level, right associativity).
Notation "m ;;; k" := (bind m (fun _ => k))
  (at level 100, right associativity).

Definition result_of {A} (r : outcome A * state * list event) : outcome A := r.1.1.
Definition state_of {A} (r : outcome A * state * list event) : state := r.1.2.
Definition events_of {A} (r : outcome A * state * list event) : list event := r.2.

(** ** The seen-matches store *)

(** [save_seen_matches]: the write may fail; the failure is logged and
    swallowed.  A failed write is taken to fail when the file is opened,
    which leaves the record as it was; a failure later in the write, which
    leaves a truncated file behind, is not modelled, and no property below
    describes the record after a failed write. *)
Definition save_seen_matches (write_ok : bool) : M unit :=
  st <- get ;;
  emit (EvSave (seen_matches st) write_ok) ;;;
  if write_ok then set_file (Stored (seen_matches st))
  else emit (EvLog LvlError).

(** What the environment answers to [load_seen_matches]. *)
Record load_env : Type := mkLoadEnv {
  makedirs_ok : bool;
  read_ok : bool;
  load_write_ok : bool
}.

Definition makedirs (ok : bool) : M unit :=
  if ok then ret tt else raise OSError.

(** [set(json.load(open(file)))] *)
Definition read_record (ok : bool) (f : file_state) : M (gset string) :=
  if ok then
    match f with
    | Stored elems => ret elems
    | Malformed => raise JSONDecodeError
    | Absent => raise OSError
    end
  else raise OSError.

Definition load_seen_matches (env : load_env) : M unit :=
  try_except
    (makedirs (makedirs_ok env) ;;;
     st <- get ;;
     match seen_matches_file st with
     | Absent => set_seen ∅ ;;; save_seen_matches (load_write_ok env)
     | f => s <- read_record (read_ok env) f ;; set_seen s
     end)
    (fun _ => emit (EvLog LvlError) ;;; set_seen ∅).

(** ** The keyword check *)

(** [all(word.lower() in line_lower for word in self.search_strings)] *)
Definition line_matches (terms : list string) (line : string) : bool :=
  let line_lower := PyStr.lower line in
  forallb (fun word => PyStr.contains (PyStr.lower word) line_lower) terms.

(** [' '.join(line_lower.split())] *)
Definition normalize (line_lower : string) : string :=
  PyStr.join " " (PyStr.split line_lower).

Definition fingerprint (line : string) : string := normalize (PyStr.lower line).

(** [[line.strip() for line in text.split('\n') if line.strip()]] *)
Definition text_lines (text : string) : list string :=
  omap (fun line => let l := PyStr.strip line in
                    if PyStr.truthy l then Some l else None)
       (PyStr.split_on newline text).

(** The [for line in lines] loop: the new matching lines, in order, and
    the set of seen fingerprints after the loop. *)
Fixpoint scan_lines (terms : list string) (lines : list string)
    (seen : gset string) : list string * gset string :=
  match lines with
  | [] => ([], seen)
  | line :: rest =>
      if line_matches terms line then
        let normalized_line := fingerprint line in
        if decide (normalized_line ∈ seen) then scan_lines terms rest seen
        else
          let '(new, seen') := scan_lines terms rest ({[normalized_line]} ∪ seen) in
          (line :: new, seen')
      else scan_lines terms rest seen
  end.

Definition nonempty {A} (l : list A) : bool :=
  match l with [] => false | _ => true end.

Definition truthy_opt (o : option string) : bool :=
  match o with Some s => PyStr.truthy s | None => false end.

Section Monitor.

(** BeautifulSoup's parse, removal of script and style elements and
    [get_text]; [None] stands for an exception raised there. *)
Variable get_text : string -> option string.

Variable cfg : config.

Definition soup_text (html : string) : M string :=
  match get_text html with
  | Some text => ret text
  | None => raise ParserError
  end.

Definition check_for_keywords (write_ok : bool) (html_content : option string)
    : M (bool * list string) :=
  match html_content with
  | Some html =>
      if PyStr.truthy html then
        try_except
          (text <- soup_text html ;;
           let lines := text_lines text in
           st <- get ;;
           let '(new_matching_lines, seen') :=
             scan_lines (search_strings cfg) lines (seen_matches st) in
           set_seen seen' ;;;
           (if nonempty new_matching_lines then save_seen_matches write_ok
            else ret tt) ;;;
           ret (nonempty new_matching_lines, new_matching_lines))
          (fun _ => emit (EvLog LvlError) ;;; ret (false, []))
      else ret (false, [])
  | None => ret (false, [])
  end.

(** ** Notification *)

Definition email_title (first : string) : string :=
  let subject_text :=
    if (100 <? String.length first)%nat then str_take 100 first +:+ "..."
    else first in
  "New Pick Thread: " +:+ subject_text.

Definition email_body (matching_lines : list string) : string :=
  "Found new thread(s) with your search terms:" +:+ nl +:+ nl
  +:+ PyStr.join (nl +:+ nl) matching_lines
  +:+ nl +:+ nl +:+ "View thread(s) at: " +:+ url cfg.

Definition send_email_notification (send_ok : bool)
    (matching_lines : list string) : M bool :=
  match matching_lines with
  | [] => raise IndexError
  | first :: _ =>
      emit (EvSend (email_title first) (email_body matching_lines) send_ok) ;;;
      if send_ok then emit (EvLog LvlInfo) ;;; ret true
      else emit (EvLog LvlError) ;;; ret false
  end.

(** ** The polling loop *)

(** What [requests.get] does in one iteration: a body, a timeout, another
    [RequestException], or an exception outside that family. *)
Inductive fetch_result : Type :=
  | FetchOk (body : string)
  | FetchTimeout
  | FetchRequestError
  | FetchUnexpected.

Record iter_env : Type := mkIterEnv {
  fetch_res : fetch_result;
  write_ok : bool;
  send_ok : bool
}.

Definition fetch_page_content (fr : fetch_result) : M (option string) :=
  match fr with
  | FetchOk body => ret (Some body)
  | FetchTimeout => emit (EvLog LvlError) ;;; ret None
  | FetchRequestError => emit (EvLog LvlError) ;;; ret None
  | FetchUnexpected => raise RuntimeError
  end.

Definition incr_errors : M unit :=
  st <- get ;; set_errors (consecutive_errors st + 1).

Definition sleep (secs : Z) : M unit := emit (EvSleep secs).

(** The body of the inner [try] up to the back-off decision. *)
Definition fetch_and_check (env : iter_env) : M unit :=
  content <- fetch_page_content (fetch_res env) ;;
  if truthy_opt content then
    r <- check_for_keywords (write_ok env) content ;;
    let new_matches := r.2 in
    if nonempty new_matches then
      ok <- send_email_notification (send_ok env) new_matches ;;
      if ok then set_errors 0 else incr_errors
    else set_errors 0
  else incr_errors.

(** The back-off decision and the sleep. *)
Definition sleep_step : M unit :=
  st <- get ;;
  if 5 <? consecutive_errors st then
    emit (EvLog LvlWarning) ;;;
    sleep (check_interval cfg * 2) ;;;
    set_errors 0
  else sleep (check_interval cfg).

(** One pass through the [while True] body.  Console output is not part
    of the model. *)
Definition iteration (env : iter_env) : M unit :=
  try_except
    (fetch_and_check env ;;; sleep_step)
    (fun _ =>
       emit (EvLog LvlError) ;;;
       incr_errors ;;;
       sleep (check_interval cfg)).

(** The loop over the environment's answers for a finite number of
    iterations; the run ends where a [KeyboardInterrupt] would stop it. *)
Fixpoint monitor_loop (envs : list iter_env) : M unit :=
  match envs with
  | [] => ret tt
  | env :: rest => iteration env ;;; monitor_loop rest
  end.

Definition start_monitoring (envs : list iter_env) : M unit :=
  emit (EvLog LvlInfo) ;;;
  set_errors 0 ;;;
  monitor_loop envs.

End Monitor.

(** ** What the claims speak about, in the words of the specification *)

(** [sub] occurs in [s] as a substring. *)
Definition occurs_in (sub s : string) : Prop :=
  exists pre post, s = pre +:+ sub +:+ post.


(** Whitespace runs collapsed to single spaces, casing untouched. *)
Definition collapse (line : string) : string :=
  PyStr.join " " (PyStr.split line).

(** The fingerprint as the specification words it: the lowercase form of
    the whitespace-collapsed original line. *)
Definition fingerprint_spec (line : string) : string :=
  PyStr.lower (collapse line).

Definition is_save (e : event) : bool :=
  match e with EvSave _ _ => true | _ => false end.

Definition is_send (e : event) : bool :=
  match e with EvSend _ _ _ => true | _ => false end.

(** The durations slept, in order. *)
Definition sleeps (evs : list event) : list Z :=
  omap (fun e => match e with EvSleep s => Some s | _ => None end) evs.

(** An iteration that reaches the back-off decision with the counter one
    higher than it started: a failed fetch or a failed send. *)
Definition iter_failed (get_text : string -> option string) (cfg : config)
    (env : iter_env) (st : state) : bool :=
  match fetch_and_check get_text cfg env st with
  | (Return _, st', _) =>
      bool_decide (consecutive_errors st' = consecutive_errors st + 1)
  | (Raise _, _, _) => false
  end.

(** Every iteration of the run fails in that sense. *)
Fixpoint streak_of_failures (get_text : string -> option string) (cfg : config)
    (envs : list iter_env) (st : state) : bool :=
  match envs with
  | [] => true
  | env :: rest =>
      iter_failed get_text cfg env st
      && streak_of_failures get_text cfg rest
           (state_of (iteration get_text cfg env st))
  end.

Definition no_unexpected (env : iter_env) : bool :=
  match fetch_res env with FetchUnexpected => false | _ => true end.

(** The state after a keyword check that found [new] and left the set
    [seen'], and the effects of that check. *)
Definition after_check (st : state) (new : list string) (seen' : gset string)
    (w : bool) : state :=
  mkState seen'
    (if nonempty new && w then Stored seen' else seen_matches_file st)
    (consecutive_errors st).

Definition check_events (new : list string) (seen' : gset string) (w : bool)
    : list event :=
  if nonempty new then EvSave seen' w :: (if w then [] else [EvLog LvlError])
  else [].

(** The effects of sending a notification for the lines [new]. *)
Definition send_events (cfg : config) (new : list string) (ok : bool) : list event :=
  match new with
  | [] => []
  | first :: _ =>
      [EvSend (email_title first) (email_body cfg new) ok;
       EvLog (if ok then LvlInfo else LvlError)]
  end.

(** The sleeps of [k] failed iterations in a row that start with the
    counter at [n], and the counter after them. *)
Fixpoint backoff_sleeps (interval n : Z) (k : nat) : list Z :=
  match k with
  | O => []
  | S k' =>
      if 5 <? n + 1 then interval * 2 :: backoff_sleeps interval 0 k'
      else interval :: backoff_sleeps interval (n + 1) k'
  end.

Fixpoint backoff_counter (n : Z) (k : nat) : Z :=
  match k with
  | O => n
  | S k' => if 5 <? n + 1 then backoff_counter 0 k' else backoff_counter (n + 1) k'
  end.

(** ** Concrete inputs used in examples *)

Definition demo_cfg : config := mkConfig "http://example.org/board" ["pickup"; "alpha"] 300.
Definition demo_state : state := mkState ∅ Absent 0.
Definition demo_page : string :=
  "Ignore this line" +:+ nl +:+ "New Pickup: Alpha Widget" +:+ nl +:+ "Unrelated".
Definition demo_env (fr : fetch_result) (send : bool) : iter_env := mkIterEnv fr true send.
Definition unexpected_env : iter_env := mkIterEnv FetchUnexpected true true.

(** ** Configuration validation

    The validators are pure: they return the validated value, raise
    [ConfigError] with a message, or let another exception through. *)

Inductive checked (A : Type) : Type :=
  | Valid (a : A)
  | ConfigError (msg : string)
  | Uncaught (cls : string).
Arguments Valid {A} a.
Arguments ConfigError {A} msg.
Arguments Uncaught {A} cls.

Definition and_then {A B} (c : checked A) (k : A -> checked B) : checked B :=
  match c with
  | Valid a => k a
  | ConfigError msg => ConfigError msg
  | Uncaught cls => Uncaught cls
  end.

Definition comma : ascii := ascii_of_N 44.

(** [validate_search_terms] *)
Definition validate_search_terms (terms : option string) : checked (list string) :=
  if negb (truthy_opt terms) then ConfigError "SEARCH_STRINGS is required"
  else
    let terms_list :=
      (fun term => PyStr.strip term)
        <$> PyStr.split_on comma (default EmptyString terms) in
    if negb (nonempty terms_list) then ConfigError "No valid search terms provided"
    else if existsb (fun term => (String.length term <? 2)%nat) terms_list
    then ConfigError "Search terms must be at least 2 characters long"
    else Valid terms_list.

(** [validate_interval]; [py_int] is Python's [int] on strings, [None]
    standing for [ValueError]. *)
Definition validate_interval (py_int : string -> option Z) (interval : string)
    : checked Z :=
  match py_int interval with
  | Some n =>
      if n <? 60 then ConfigError "CHECK_INTERVAL must be at least 60 seconds"
      else if 86400 <? n
      then ConfigError "CHECK_INTERVAL must not exceed 86400 seconds (24 hours)"
      else Valid n
  | None => ConfigError "CHECK_INTERVAL must be a valid number"
  end.

(** *** Regular expressions, as far as [email_pattern] needs them *)

Inductive regex : Type :=
  | RNone
  | REps
  | RClass (f : ascii -> bool)
  | RSeq (r1 r2 : regex)
  | RAlt (r1 r2 : regex)
  | RStar (r : regex).

Inductive matches : regex -> string -> Prop :=
  | MEps : matches REps EmptyString
  | MClass f c : f c = true -> matches (RClass f) (String c EmptyString)
  | MSeq r1 r2 s1 s2 :
      matches r1 s1 -> matches r2 s2 -> matches (RSeq r1 r2) (s1 +:+ s2)
  | MAltL r1 r2 s : matches r1 s -> matches (RAlt r1 r2) s
  | MAltR r1 r2 s : matches r2 s -> matches (RAlt r1 r2) s
  | MStarNil r : matches (RStar r) EmptyString
  | MStarCons r s1 s2 :
      matches r s1 -> matches (RStar r) s2 -> matches (RStar r) (s1 +:+ s2).

Fixpoint nullable (r : regex) : bool :=
  match r with
  | RNone => false
  | REps => true
  | RClass _ => false
  | RSeq r1 r2 => nullable r1 && nullable r2
  | RAlt r1 r2 => nullable r1 || nullable r2
  | RStar _ => true
  end.

Fixpoint deriv (c : ascii) (r : regex) : regex :=
  match r with
  | RNone => RNone
  | REps => RNone
  | RClass f => if f c then REps else RNone
  | RSeq r1 r2 =>
      if nullable r1 then RAlt (RSeq (deriv c r1) r2) (deriv c r2)
      else RSeq (deriv c r1) r2
  | RAlt r1 r2 => RAlt (deriv c r1) (deriv c r2)
  | RStar r1 => RSeq (deriv c r1) (RStar r1)
  end.

(** The whole of [s] matches [r]. *)
Fixpoint accepts (r : regex) (s : string) : bool :=
  match s with
  | EmptyString => nullable r
  | String c s' => accepts (deriv c r) s'
  end.

(** [s] without one final newline, when it has one. *)
Fixpoint chomp (s : string) : option string :=
  match s with
  | EmptyString => None
  | String c s' =>
      match s' with
      | EmptyString => if decide (c = newline) then Some EmptyString else None
      | _ => match chomp s' with Some t => Some (String c t) | None => None end
      end
  end.

(** [re.match('^' r '$', s)] succeeds: [r] matches a prefix of [s] that
    ends where [$] holds, at the end of [s] or before a final newline. *)
Definition re_match (r : regex) (s : string) : bool :=
  accepts r s
  || match chomp s with Some s' => accepts r s' | None => false end.

Definition in_range (lo hi : N) (c : ascii) : bool :=
  ((lo <=? N_of_ascii c) && (N_of_ascii c <=? hi))%N.

Definition one_of (chars : string) (c : ascii) : bool :=
  existsb (fun x => bool_decide (x = c)) (list_ascii_of_string chars).

(** [[a-zA-Z]] *)
Definition is_alpha (c : ascii) : bool := in_range 97 122 c || in_range 65 90 c.
(** [[a-zA-Z0-9._%+-]] *)
Definition local_class (c : ascii) : bool :=
  is_alpha c || in_range 48 57 c || one_of "._%+-" c.
(** [[a-zA-Z0-9.-]] *)
Definition domain_class (c : ascii) : bool :=
  is_alpha c || in_range 48 57 c || one_of ".-" c.

Definition rchar (c : ascii) : regex := RClass (fun x => bool_decide (x = c)).
Definition rplus (r : regex) : regex := RSeq r (RStar r).

(** [^[a-zA-Z0-9._%+-]+@[a-zA-Z0-9.-]+\.[a-zA-Z]{2,}$] without its anchors. *)
Definition email_pattern : regex :=
  RSeq (rplus (RClass local_class))
    (RSeq (rchar "@")
       (RSeq (rplus (RClass domain_class))
          (RSeq (rchar ".")
             (RSeq (RClass is_alpha) (RSeq (RClass is_alpha) (RStar (RClass is_alpha))))))).

(** *** The email settings *)

(** A Python dict from field names to [str] or [None]. *)
Definition email_dict : Type := gmap string (option string).

(** [config.get(field)], taken as a truth value. *)
Definition field_truthy (config : email_dict) (field : string) : bool :=
  match config !! field with
  | Some v => truthy_opt v
  | None => false
  end.

(** [config[field]] where a [str] is needed. *)
Definition field_str (config : email_dict) (field : string) : checked string :=
  match config !! field with
  | Some (Some v) => Valid v
  | Some None => Uncaught "TypeError"
  | None => Uncaught "KeyError"
  end.

Definition required_fields : list string :=
  ["smtp_server"; "smtp_port"; "sender_email"; "sender_password"; "recipient_email"].

(** The [for field in required_fields] loop: the first field that is
    missing or empty, if any. *)
Fixpoint first_missing (config : email_dict) (fields : list string) : option string :=
  match fields with
  | [] => None
  | field :: rest =>
      if negb (field_truthy config field) then Some field
      else first_missing config rest
  end.

(** [validate_email_config] *)
Definition validate_email_config (py_int : string -> option Z) (config : email_dict)
    : checked email_dict :=
  match first_missing config required_fields with
  | Some field => ConfigError ("Missing required email configuration: " +:+ field)
  | None =>
      and_then (field_str config "sender_email") (fun sender =>
      if negb (re_match email_pattern sender)
      then ConfigError "Invalid sender email address" else
      and_then (field_str config "recipient_email") (fun recipient =>
      if negb (re_match email_pattern recipient)
      then ConfigError "Invalid recipient email address" else
      and_then (field_str config "smtp_port") (fun port_str =>
      match py_int port_str with
      | Some port =>
          if (port <? 1) || (65535 <? port)
          then ConfigError "Invalid SMTP port number"
          else Valid config
      | None => ConfigError "SMTP port must be a valid number"
      end)))
  end.

(** *** The URL *)

(** What [requests.head(url, timeout=10)] followed by [raise_for_status]
    does: nothing, a [RequestException] with its text, or another
    exception. *)
Inductive head_result : Type :=
  | HeadOk
  | HeadRequestException (text : string)
  | HeadOther (cls : string).

Section Startup.

(** [int] on strings; [urlparse], giving scheme and netloc, [None] for an
    exception; and the reachability probe. *)
Variable py_int : string -> option Z.
Variable urlparse : string -> option (string * string).
Variable head : string -> head_result.

(** The [try] around [urlparse]: the [ConfigError] raised inside it is
    caught by its own [except Exception]. *)
Definition check_url_format (url : string) : checked unit :=
  let body : checked unit :=
    match urlparse url with
    | Some (scheme, netloc) =>
        if negb (PyStr.truthy scheme && PyStr.truthy netloc)
        then ConfigError "Invalid URL format. Must include http:// or https://"
        else Valid tt
    | None => Uncaught "ValueError"
    end in
  match body with
  | Valid tt => Valid tt
  | ConfigError _ => ConfigError "Invalid URL format"
  | Uncaught _ => ConfigError "Invalid URL format"
  end.

(** [validate_url] *)
Definition validate_url (url : option string) : checked string :=
  if negb (truthy_opt url) then ConfigError "MONITOR_URL is required"
  else
    let u := default EmptyString url in
    and_then (check_url_format u) (fun _ =>
    match head u with
    | HeadOk => Valid u
    | HeadRequestException text => ConfigError ("Unable to access URL: " +:+ text)
    | HeadOther cls => Uncaught cls
    end).

(** What [validate_and_set_config] stores on the monitor. *)
Record settings : Type := mkSettings {
  loop_config : config;
  email_config : email_dict;
  seen_matches_path : string
}.

(** [os.environ] and [os.getenv] *)
Definition getenv (environ : gmap string string) (key : string) : option string :=
  environ !! key.
Definition getenv_or (environ : gmap string string) (key dflt : string) : string :=
  default dflt (environ !! key).

Definition email_from_env (environ : gmap string string) : email_dict :=
  <["smtp_server" := Some (getenv_or environ "SMTP_SERVER" "smtp.gmail.com")]>
  (<["smtp_port" := Some (getenv_or environ "SMTP_PORT" "587")]>
  (<["sender_email" := getenv environ "SENDER_EMAIL"]>
  (<["sender_password" := getenv environ "SENDER_PASSWORD"]>
  (<["recipient_email" := getenv environ "RECIPIENT_EMAIL"]> ∅)))).

(** [validate_and_set_config], without its log lines. *)
Definition validate_and_set_config (environ : gmap string string) : checked settings :=
  and_then (validate_url (getenv environ "MONITOR_URL")) (fun the_url =>
  and_then (validate_search_terms (getenv environ "SEARCH_STRINGS")) (fun terms =>
  and_then (validate_interval py_int (getenv_or environ "CHECK_INTERVAL" "300"))
    (fun interval =>
  and_then (validate_email_config py_int (email_from_env environ)) (fun email =>
  Valid (mkSettings (mkConfig the_url terms interval) email
           "/app/config/seen_matches.json"))))).

(** *** Start-up and [main] *)

(** What the environment answers during start-up. *)
Record startup_env : Type := mkStartupEnv {
  logging_ok : bool;
  environ_of : gmap string string;
  load_answers : load_env
}.

Variable get_text : string -> option string.

(** [WebMonitor.__init__]: logging, configuration, then the store. *)
Definition init_monitor (env : startup_env) (st : state)
    : checked settings * state * list event :=
  if negb (logging_ok env) then (Uncaught "OSError", st, [])
  else
    match validate_and_set_config (environ_of env) with
    | Valid s =>
        match load_seen_matches (load_answers env) st with
        | (Return _, st', evs) => (Valid s, st', replicate 7 (EvLog LvlInfo) ++ evs)
        | (Raise _, st', evs) =>
            (Uncaught "Exception", st', replicate 7 (EvLog LvlInfo) ++ evs)
        end
    | ConfigError msg => (ConfigError msg, st, [])
    | Uncaught cls => (Uncaught cls, st, [])
    end.

(** [main]: both [except] branches log one error and return. *)
Definition main (env : startup_env) (envs : list iter_env) (st : state)
    : state * list event :=
  match init_monitor env st with
  | (Valid s, st', evs) =>
      match start_monitoring get_text (loop_config s) envs st' with
      | (Return _, st'', evs') => (st'', evs ++ evs')
      | (Raise _, st'', evs') => (st'', evs ++ evs' ++ [EvLog LvlError])
      end
  | (ConfigError _, st', evs) => (st', evs ++ [EvLog LvlError])
  | (Uncaught _, st', evs) => (st', evs ++ [EvLog LvlError])
  end.

End Startup.

(** ** Further vocabulary for the properties *)

Fixpoint str_forall (f : ascii -> bool) (s : string) : bool :=
  match s with
  | EmptyString => true
  | String c s' => f c && str_forall f s'
  end.

Definition first_char (s : string) : option ascii :=
  match s with EmptyString => None | String c _ => Some c end.

Fixpoint last_char (s : string) : option ascii :=
  match s with
  | EmptyString => None
  | String c EmptyString => Some c
  | String _ s' => last_char s'
  end.

(** Neither the first nor the last character is whitespace. *)
Definition trimmed (s : string) : Prop :=
  (forall c, first_char s = Some c -> PyStr.is_space c = false)
  /\ (forall c, last_char s = Some c -> PyStr.is_space c = false).

(** A non-empty string without whitespace. *)
Definition is_word (w : string) : Prop :=
  w <> EmptyString /\ str_forall (fun c => negb (PyStr.is_space c)) w = true.

Definition no_newline (s : string) : Prop :=
  str_forall (fun c => negb (bool_decide (c = newline))) s = true.

(** A search term as [validate_search_terms] lets it through. *)
Definition good_term (t : string) : Prop :=
  (2 <= String.length t)%nat /\ trimmed t
  /\ str_forall (fun c => negb (bool_decide (c = comma))) t = true.

(** The shape of an address that [email_pattern] accepts. *)
Definition email_shape (s : string) : Prop :=
  exists local domain tld tail,
    s = local +:+ "@" +:+ domain +:+ "." +:+ tld +:+ tail
    /\ (tail = EmptyString \/ tail = nl)
    /\ local <> EmptyString /\ str_forall local_class local = true
    /\ domain <> EmptyString /\ str_forall domain_class domain = true
    /\ (2 <= String.length tld)%nat /\ str_forall is_alpha tld = true.

(** Email settings that [validate_email_config] lets through. *)
Definition email_settings_ok (py_int : string -> option Z) (config : email_dict)
    : Prop :=
  (forall f, f ∈ required_fields -> field_truthy config f = true)
  /\ exists sender recipient port_str port,
       config !! "sender_email" = Some (Some sender) /\ email_shape sender
       /\ config !! "recipient_email" = Some (Some recipient) /\ email_shape recipient
       /\ config !! "smtp_port" = Some (Some port_str)
       /\ py_int port_str = Some port /\ 1 <= port <= 65535.

Fixpoint count_char (c : ascii) (s : string) : nat :=
  match s with
  | EmptyString => O
  | String x s' => (if decide (x = c) then 1 else 0) + count_char c s'
  end.

(** A plain decimal reader, for examples: digits only. *)
Fixpoint digits_value (acc : Z) (s : string) : option Z :=
  match s with
  | EmptyString => Some acc
  | String c s' =>
      if in_range 48 57 c
      then digits_value (acc * 10 + Z.of_N (N_of_ascii c - 48)) s'
      else None
  end.

Definition int_of_digits (s : string) : option Z :=
  match s with EmptyString => None | _ => digits_value 0 s end.

Definition demo_environ : gmap string string :=
  <["MONITOR_URL" := "http://example.org/board"]>
  (<["SEARCH_STRINGS" := "pickup, alpha"]>
  (<["SENDER_EMAIL" := "bot@example.org"]>
  (<["SENDER_PASSWORD" := "secret"]>
  (<["RECIPIENT_EMAIL" := "me@example.org"]> ∅)))).

Definition demo_urlparse (u : string) : option (string * string) :=
  if PyStr.startswith "http://" u then Some ("http", "example.org") else Some (EmptyString, EmptyString).


(** A line is new at its place on the page: every term occurs in it, its
    fingerprint was not seen before the call, and no matching line before
    it on the page has the same fingerprint. *)
Definition is_first_new (terms : list string) (seen : gset string)
    (before : list string) (line : string) : bool :=
  line_matches terms line
  && bool_decide (fingerprint line ∉ seen)
  && forallb (fun l => negb (line_matches terms l
                             && bool_decide (fingerprint l = fingerprint line)))
             before.

(** The lines of the page that are new at their place, in page order;
    [before] holds the lines of the page already passed. *)
Fixpoint select_new (terms : list string) (seen : gset string)
    (before lines : list string) : list string :=
  match lines with
  | [] => []
  | line :: rest =>
      (if is_first_new terms seen before line then [line] else [])
      ++ select_new terms seen (before ++ [line]) rest
  end.

(** The fingerprints of the matching lines among [before]. *)
Fixpoint matched_fingerprints (terms : list string) (before : list string)
    : gset string :=
  match before with
  | [] => ∅
  | l :: rest =>
      (if line_matches terms l then {[fingerprint l]} else ∅)
      ∪ matched_fingerprints terms rest
  end.

(** * Properties *)

(** ** Strings *)

Section StringFacts.

Lemma app_nil (b : string) : EmptyString +:+ b = b.
Proof. reflexivity. Qed.

Lemma app_cons (c : ascii) (a b : string) : String c a +:+ b = String c (a +:+ b).
Proof. reflexivity. Qed.

Lemma app_assoc_s (a b c : string) : (a +:+ b) +:+ c = a +:+ b +:+ c.
Proof.
  induction a as [|x a IH]; [reflexivity|]. now rewrite !app_cons, IH.
Qed.

Lemma is_space_lower_char (c : ascii) :
  PyStr.is_space (PyStr.lower_char c) = PyStr.is_space c.
Proof. destruct c as [[] [] [] [] [] [] [] []]; vm_compute; reflexivity. Qed.

Lemma lower_app (a b : string) :
  PyStr.lower (a +:+ b) = PyStr.lower a +:+ PyStr.lower b.
Proof.
  induction a as [|c a IH]; [reflexivity|]. rewrite app_cons. simpl.
  now rewrite IH.
Qed.

Lemma lower_empty_iff (s : string) : PyStr.lower s = EmptyString <-> s = EmptyString.
Proof. destruct s; simpl; split; congruence. Qed.

Lemma split_go_lower (cur s : string) :
  PyStr.split_go (PyStr.lower cur) (PyStr.lower s)
  = PyStr.lower <$> PyStr.split_go cur s.
Proof.
  revert cur. induction s as [|c s IH]; intros cur; simpl.
  - destruct cur; reflexivity.
  - rewrite is_space_lower_char. destruct (PyStr.is_space c).
    + destruct cur; simpl; [apply (IH EmptyString) | f_equal; apply (IH EmptyString)].
    + rewrite <- IH, lower_app. reflexivity.
Qed.

Lemma split_lower (s : string) :
  PyStr.split (PyStr.lower s) = PyStr.lower <$> PyStr.split s.
Proof. apply (split_go_lower EmptyString s). Qed.

Lemma join_lower (sep : string) (l : list string) :
  PyStr.join (PyStr.lower sep) (PyStr.lower <$> l) = PyStr.lower (PyStr.join sep l).
Proof.
  induction l as [|w ws IH]; [reflexivity|].
  destruct ws as [|w' ws]; [reflexivity|].
  change (PyStr.lower w +:+ PyStr.lower sep +:+ PyStr.join (PyStr.lower sep) (PyStr.lower <$> w' :: ws)
          = PyStr.lower (w +:+ sep +:+ PyStr.join sep (w' :: ws))).
  now rewrite IH, !lower_app.
Qed.




Lemma fingerprint_is_spec (line : string) : fingerprint line = fingerprint_spec line.
Proof.
  unfold fingerprint, normalize, fingerprint_spec, collapse.
  rewrite split_lower. apply (join_lower " ").
Qed.

End StringFacts.

(** ** The scan over the lines *)

Section ScanFacts.

Variable terms : list string.

Lemma scan_sublist (lines : list string) (seen : gset string) :
  (scan_lines terms lines seen).1 `sublist_of` lines.
Proof.
  revert seen. induction lines as [|line rest IH]; intros seen; simpl.
  - constructor.
  - destruct (line_matches terms line).
    + destruct (decide (fingerprint line ∈ seen)).
      * apply sublist_cons, IH.
      * specialize (IH ({[fingerprint line]} ∪ seen)).
        destruct (scan_lines terms rest _) as [new seen']. simpl in *.
        now apply sublist_skip.
    + apply sublist_cons, IH.
Qed.

Lemma scan_seen (lines : list string) (seen : gset string) :
  (scan_lines terms lines seen).2
  = seen ∪ list_to_set (fingerprint <$> (scan_lines terms lines seen).1).
Proof.
  revert seen. induction lines as [|line rest IH]; intros seen; simpl.
  - set_solver.
  - destruct (line_matches terms line); [|apply IH].
    destruct (decide (fingerprint line ∈ seen)); [apply IH|].
    specialize (IH ({[fingerprint line]} ∪ seen)).
    destruct (scan_lines terms rest _) as [new seen']. simpl in *.
    rewrite IH. set_solver.
Qed.

Lemma scan_new_fresh (lines : list string) (seen : gset string) (l : string) :
  l ∈ (scan_lines terms lines seen).1 ->
  line_matches terms l = true /\ fingerprint l ∉ seen.
Proof.
  revert seen. induction lines as [|line rest IH]; intros seen; simpl.
  - intros H. inversion H.
  - destruct (line_matches terms line) eqn:Hm; [|apply IH].
    destruct (decide (fingerprint line ∈ seen)) as [Hin|Hin]; [apply IH|].
    specialize (IH ({[fingerprint line]} ∪ seen)).
    destruct (scan_lines terms rest _) as [new seen']. simpl in *.
    intros [->|H]%elem_of_cons; [easy|].
    destruct (IH H) as [? ?]. split; [assumption | set_solver].
Qed.

Lemma scan_nodup (lines : list string) (seen : gset string) :
  NoDup (fingerprint <$> (scan_lines terms lines seen).1).
Proof.
  revert seen. induction lines as [|line rest IH]; intros seen; simpl.
  - constructor.
  - destruct (line_matches terms line) eqn:Hm; [|apply IH].
    destruct (decide (fingerprint line ∈ seen)) as [Hin|Hin]; [apply IH|].
    pose proof (IH ({[fingerprint line]} ∪ seen)) as Hnd.
    pose proof (scan_new_fresh rest ({[fingerprint line]} ∪ seen)) as Hfresh.
    destruct (scan_lines terms rest _) as [new seen']. simpl in *.
    constructor; [|assumption].
    intros (b & Hb & Hbin)%list_elem_of_fmap.
    destruct (Hfresh b Hbin) as [_ Hnot]. set_solver.
Qed.

Lemma scan_covers (lines : list string) (seen : gset string) (l : string) :
  l ∈ lines -> line_matches terms l = true ->
  fingerprint l ∈ (scan_lines terms lines seen).2.
Proof.
  revert seen. induction lines as [|line rest IH]; intros seen Hin Hm.
  - inversion Hin.
  - simpl. apply elem_of_cons in Hin as [->|Hin].
    + rewrite Hm. destruct (decide (fingerprint line ∈ seen)) as [Hs|Hs].
      * rewrite scan_seen. set_solver.
      * pose proof (scan_seen rest ({[fingerprint line]} ∪ seen)) as Hseen.
        destruct (scan_lines terms rest _) as [new seen']. simpl in *.
        rewrite Hseen. set_solver.
    + destruct (line_matches terms line); [|now apply IH].
      destruct (decide (fingerprint line ∈ seen)); [now apply IH|].
      specialize (IH ({[fingerprint line]} ∪ seen) Hin Hm).
      destruct (scan_lines terms rest _) as [new seen']. exact IH.
Qed.

Lemma scan_all_seen (lines : list string) (seen : gset string) :
  (forall l, l ∈ lines -> line_matches terms l = true -> fingerprint l ∈ seen) ->
  scan_lines terms lines seen = ([], seen).
Proof.
  induction lines as [|line rest IH]; intros H; simpl; [reflexivity|].
  destruct (line_matches terms line) eqn:Hm.
  - destruct (decide (fingerprint line ∈ seen)) as [Hin|Hin].
    + apply IH. intros l Hl. apply H. now right.
    + exfalso. apply Hin, H; [left | assumption].
  - apply IH. intros l Hl. apply H. now right.
Qed.

Lemma scan_seen_mono (lines : list string) (seen : gset string) :
  seen ⊆ (scan_lines terms lines seen).2.
Proof. rewrite scan_seen. set_solver. Qed.

Lemma scan_twice (lines : list string) (seen : gset string) :
  scan_lines terms lines (scan_lines terms lines seen).2
  = ([], (scan_lines terms lines seen).2).
Proof. apply scan_all_seen. intros l Hl Hm. now apply scan_covers. Qed.

Lemma scan_app (pre post : list string) (seen : gset string) :
  scan_lines terms (pre ++ post) seen
  = ((scan_lines terms pre seen).1
       ++ (scan_lines terms post (scan_lines terms pre seen).2).1,
     (scan_lines terms post (scan_lines terms pre seen).2).2).
Proof.
  revert seen. induction pre as [|line rest IH]; intros seen; simpl.
  - now destruct (scan_lines terms post seen).
  - destruct (line_matches terms line); [|apply IH].
    destruct (decide (fingerprint line ∈ seen)); [apply IH|].
    rewrite IH. destruct (scan_lines terms rest _) as [new seen']. reflexivity.
Qed.

Lemma scan_changed_iff (lines : list string) (seen : gset string) :
  (scan_lines terms lines seen).2 = seen <-> (scan_lines terms lines seen).1 = [].
Proof.
  split.
  - intros Heq. destruct (scan_lines terms lines seen).1 as [|l new] eqn:Hn; [reflexivity|].
    exfalso. destruct (scan_new_fresh lines seen l) as [_ Hfresh].
    + rewrite Hn. left.
    + apply Hfresh. rewrite <- Heq, scan_seen, Hn. set_solver.
  - intros Hn. rewrite scan_seen, Hn. set_solver.
Qed.

Lemma matched_fingerprints_snoc (before : list string) (l : string) :
  matched_fingerprints terms (before ++ [l])
  = matched_fingerprints terms before
    ∪ (if line_matches terms l then {[fingerprint l]} else ∅).
Proof.
  induction before as [|b before IH]; simpl.
  - set_solver.
  - rewrite IH. set_solver.
Qed.

Lemma no_earlier_match_iff (before : list string) (line : string) :
  forallb (fun l => negb (line_matches terms l
                          && bool_decide (fingerprint l = fingerprint line)))
          before = true
  <-> fingerprint line ∉ matched_fingerprints terms before.
Proof.
  induction before as [|b before IH]; simpl.
  - split; [set_solver | reflexivity].
  - rewrite andb_true_iff, IH, negb_true_iff, andb_false_iff.
    destruct (line_matches terms b).
    + rewrite bool_decide_eq_false. split.
      * intros [[H|H] Hr]; [discriminate | set_solver].
      * intros H. split; [right | ]; set_solver.
    + split; [intros [_ Hr] | intros H; split; [now left|]]; set_solver.
Qed.

Lemma is_first_new_iff (seen : gset string) (before : list string) (line : string) :
  is_first_new terms seen before line = true
  <-> line_matches terms line = true
      /\ fingerprint line ∉ seen ∪ matched_fingerprints terms before.
Proof.
  unfold is_first_new.
  rewrite !andb_true_iff, bool_decide_eq_true, no_earlier_match_iff.
  set_solver.
Qed.

(** The loop, which threads the growing set, selects the lines that are
    new at their place. *)
Lemma scan_select (lines before : list string) (seen : gset string) :
  (scan_lines terms lines (seen ∪ matched_fingerprints terms before)).1
  = select_new terms seen before lines.
Proof.
  revert before. induction lines as [|line rest IH]; intros before; [reflexivity|].
  cbn [scan_lines select_new]. rewrite <- IH, matched_fingerprints_snoc.
  destruct (is_first_new terms seen before line) eqn:Hf.
  - apply is_first_new_iff in Hf as [Hm Hn]. rewrite Hm.
    rewrite decide_False by exact Hn.
    replace (seen ∪ (matched_fingerprints terms before ∪ {[fingerprint line]}))
      with ({[fingerprint line]} ∪ (seen ∪ matched_fingerprints terms before))
      by set_solver.
    now destruct (scan_lines terms rest _).
  - destruct (line_matches terms line) eqn:Hm.
    + destruct (decide (fingerprint line ∈ seen ∪ matched_fingerprints terms before))
        as [Hin|Hin].
      * replace (seen ∪ (matched_fingerprints terms before ∪ {[fingerprint line]}))
          with (seen ∪ matched_fingerprints terms before) by set_solver.
        reflexivity.
      * exfalso. enough (is_first_new terms seen before line = true) by congruence.
        now apply is_first_new_iff.
    + replace (seen ∪ (matched_fingerprints terms before ∪ ∅))
        with (seen ∪ matched_fingerprints terms before) by set_solver.
      reflexivity.
Qed.

Lemma scan_select_all (lines : list string) (seen : gset string) :
  (scan_lines terms lines seen).1 = select_new terms seen [] lines.
Proof.
  rewrite <- scan_select. cbn [matched_fingerprints].
  now replace (seen ∪ ∅) with seen by set_solver.
Qed.

(** What [select_new] says, line by line: a line of the page, at its
    place, is selected exactly when it is new there. *)
Lemma select_new_app (seen : gset string) (before pre post : list string) :
  select_new terms seen before (pre ++ post)
  = select_new terms seen before pre ++ select_new terms seen (before ++ pre) post.
Proof.
  revert before. induction pre as [|a pre IH]; intros before; cbn [select_new app].
  - now rewrite List.app_nil_r.
  - rewrite IH, <- !List.app_assoc. reflexivity.
Qed.

Lemma is_first_new_spec (seen : gset string) (before : list string) (line : string) :
  is_first_new terms seen before line = true
  <-> line_matches terms line = true
      /\ (fingerprint line ∉ seen)
      /\ (forall l, l ∈ before -> line_matches terms l = true ->
                    fingerprint l <> fingerprint line).
Proof.
  unfold is_first_new. rewrite !andb_true_iff, bool_decide_eq_true.
  enough (forallb (fun l => negb (line_matches terms l
                                  && bool_decide (fingerprint l = fingerprint line)))
                  before = true
          <-> forall l, l ∈ before -> line_matches terms l = true ->
                        fingerprint l <> fingerprint line) as -> by tauto.
  induction before as [|b before IH]; cbn [forallb].
  - split; [intros _ l Hl; inversion Hl | reflexivity].
  - rewrite andb_true_iff, IH, negb_true_iff, andb_false_iff, bool_decide_eq_false.
    split.
    + intros [Hb Hr] l [->|Hl]%elem_of_cons Hm; [|now apply Hr].
      destruct Hb as [Hb|Hb]; [congruence | exact Hb].
    + intros H. split.
      * destruct (line_matches terms b) eqn:Hm; [right | now left].
        apply H; [left | exact Hm].
      * intros l Hl. apply H. now right.
Qed.

Lemma elem_of_select_new (seen : gset string) (before lines : list string)
    (l : string) :
  l ∈ select_new terms seen before lines
  <-> exists pre post, lines = pre ++ l :: post
                       /\ is_first_new terms seen (before ++ pre) l = true.
Proof.
  split.
  - revert before. induction lines as [|a rest IH]; intros before; cbn [select_new].
    + intros H. inversion H.
    + intros [Hin|Hin]%elem_of_app.
      * destruct (is_first_new terms seen before a) eqn:Hf; [|inversion Hin].
        apply list_elem_of_singleton in Hin as ->.
        exists [], rest. now rewrite List.app_nil_r.
      * destruct (IH _ Hin) as (pre & post & -> & Hf).
        exists (a :: pre), post. split; [reflexivity|].
        now rewrite <- List.app_assoc in Hf.
  - intros (pre & post & -> & Hf). rewrite select_new_app. cbn [select_new].
    rewrite Hf. apply elem_of_app. right. left.
Qed.

End ScanFacts.

(** ** The keyword check as a whole *)

Section CheckFacts.

Variable get_text : string -> option string.
Variable cfg : config.

Lemma check_for_keywords_text (w : bool) (html text : string) (st : state) :
  PyStr.truthy html = true -> get_text html = Some text ->
  check_for_keywords get_text cfg w (Some html) st
  = let r := scan_lines (search_strings cfg) (text_lines text) (seen_matches st) in
    (Return (nonempty r.1, r.1), after_check st r.1 r.2 w, check_events r.1 r.2 w).
Proof.
  intros Ht Hg. unfold check_for_keywords, try_except, bind, soup_text.
  rewrite Ht, Hg. cbn.
  destruct (scan_lines (search_strings cfg) (text_lines text) (seen_matches st))
    as [new seen'].
  destruct new as [|l new]; cbn; [reflexivity|].
  destruct w; reflexivity.
Qed.

Lemma check_for_keywords_parse_error (w : bool) (html : string) (st : state) :
  PyStr.truthy html = true -> get_text html = None ->
  check_for_keywords get_text cfg w (Some html) st
  = (Return (false, []), st, [EvLog LvlError]).
Proof.
  intros Ht Hg. unfold check_for_keywords, try_except, bind, soup_text.
  rewrite Ht, Hg. reflexivity.
Qed.

Lemma check_for_keywords_falsy (w : bool) (content : option string) (st : state) :
  truthy_opt content = false ->
  check_for_keywords get_text cfg w content st = (Return (false, []), st, []).
Proof.
  destruct content as [html|]; simpl; [|reflexivity].
  intros ->. reflexivity.
Qed.

(** The check always returns; it never raises. *)
Lemma check_for_keywords_returns (w : bool) (content : option string) (st : state) :
  exists new, result_of (check_for_keywords get_text cfg w content st)
              = Return (nonempty new, new).
Proof.
  destruct (truthy_opt content) eqn:Ht.
  - destruct content as [html|]; [|discriminate]. simpl in Ht.
    destruct (get_text html) as [text|] eqn:Hg.
    + rewrite (check_for_keywords_text w html text st Ht Hg). eauto.
    + rewrite (check_for_keywords_parse_error w html st Ht Hg). now exists [].
  - rewrite check_for_keywords_falsy by assumption. now exists [].
Qed.

End CheckFacts.

(** ** Claims about the keyword check *)



(** C2. Running the keyword check a second time on the same page against
    the store left by the first run reports no new match. *)
Theorem second_check_finds_nothing
    (get_text : string -> option string) (cfg : config) (w1 w2 : bool)
    (content : option string) (st : state) :
  let first := check_for_keywords get_text cfg w1 content st in
  let second := check_for_keywords get_text cfg w2 content (state_of first) in
  result_of second = Return (false, [])
  /\ seen_matches (state_of second) = seen_matches (state_of first).
Proof.
  cbn zeta. destruct (truthy_opt content) eqn:Ht.
  - destruct content as [html|]; [|discriminate]. simpl in Ht.
    destruct (get_text html) as [text|] eqn:Hg.
    + rewrite (check_for_keywords_text _ _ w1 _ _ st Ht Hg). cbn zeta.
      unfold state_of at 1 3. cbn [fst snd].
      rewrite (check_for_keywords_text _ _ w2 _ _ _ Ht Hg). cbn zeta.
      cbn [after_check seen_matches]. rewrite scan_twice.
      unfold result_of, state_of. cbn. split; reflexivity.
    + rewrite (check_for_keywords_parse_error _ _ w1 _ st Ht Hg).
      unfold state_of at 1 3. cbn [fst snd].
      rewrite (check_for_keywords_parse_error _ _ w2 _ st Ht Hg).
      split; reflexivity.
  - rewrite (check_for_keywords_falsy _ _ w1 _ st Ht).
    unfold state_of at 1 3. cbn [fst snd].
    rewrite (check_for_keywords_falsy _ _ w2 _ st Ht). split; reflexivity.
Qed.

(** C3. The fingerprint stored for a matched line is the lowercase,
    whitespace-collapsed form of that line.  Two lines with the same words
    up to casing and to the whitespace between them share a fingerprint,
    and when both match, the second counts as a duplicate of the first. *)
Theorem fingerprint_ignores_case_and_spacing
    (terms : list string) (seen : gset string) (a b : string)
    (Hsame : PyStr.lower <$> PyStr.split a = PyStr.lower <$> PyStr.split b)
    (Ha : line_matches terms a = true) (Hb : line_matches terms b = true) :
  fingerprint a = fingerprint_spec a
  /\ fingerprint a = fingerprint b
  /\ (scan_lines terms [a; b] seen).1
     = (if decide (fingerprint a ∈ seen) then [] else [a])
  /\ (scan_lines terms [a; b] seen).2 = {[fingerprint_spec a]} ∪ seen
  /\ forall lines seen0,
       (scan_lines terms lines seen0).2
       = seen0 ∪ list_to_set (fingerprint_spec <$> (scan_lines terms lines seen0).1).
Proof.
  assert (Hfp : fingerprint a = fingerprint b).
  { unfold fingerprint, normalize. now rewrite !split_lower, Hsame. }
  split; [apply fingerprint_is_spec|]. split; [exact Hfp|].
  rewrite <- fingerprint_is_spec.
  split; [|split].
  - simpl. rewrite Ha, Hb, <- Hfp.
    destruct (decide (fingerprint a ∈ seen)) as [Hin|Hin].
    + reflexivity.
    + rewrite decide_True by set_solver. reflexivity.
  - simpl. rewrite Ha, Hb, <- Hfp.
    destruct (decide (fingerprint a ∈ seen)) as [Hin|Hin].
    + simpl. set_solver.
    + rewrite decide_True by set_solver. reflexivity.
  - intros lines seen0. rewrite scan_seen. do 2 f_equal.
    apply list_fmap_ext. intros _ l _. apply fingerprint_is_spec.
Qed.

Lemma fingerprint_ignores_case_and_spacing_witness :
  fingerprint "Foo   Bar" = fingerprint "foo bar"
  /\ (scan_lines ["foo"] ["Foo   Bar"; "foo bar"] ∅).1 = ["Foo   Bar"].
Proof.
  pose proof (fingerprint_ignores_case_and_spacing
                ["foo"] ∅ "Foo   Bar" "foo bar" eq_refl eq_refl eq_refl)
    as (_ & Hfp & Hnew & _).
  split; [exact Hfp|]. rewrite Hnew. reflexivity.
Defined.

(** C7. The keyword check returns the new matching lines in their order
    of appearance in the page text, and each returned element is the line
    as it stands in the text (trimmed), not its fingerprint.  The result
    is the list of the page's lines that are new at their place, in page
    order: a line of the page is returned exactly when every term occurs
    in it, its fingerprint was not seen before the call and no matching
    line before it on the page has the same fingerprint. *)
Theorem new_matches_keep_source_order
    (get_text : string -> option string) (cfg : config) (w : bool)
    (html text : string) (st : state)
    (Hhtml : PyStr.truthy html = true) (Htext : get_text html = Some text) :
  exists new,
    result_of (check_for_keywords get_text cfg w (Some html) st)
    = Return (nonempty new, new)
    /\ new `sublist_of` text_lines text
    /\ new `sublist_of` (PyStr.strip <$> PyStr.split_on newline text)
    /\ new = select_new (search_strings cfg) (seen_matches st) [] (text_lines text)
    /\ (forall line,
          line ∈ new
          <-> exists pre post,
                text_lines text = pre ++ line :: post
                /\ line_matches (search_strings cfg) line = true
                /\ (fingerprint line ∉ seen_matches st)
                /\ (forall l, l ∈ pre -> line_matches (search_strings cfg) l = true ->
                              fingerprint l <> fingerprint line)).
Proof.
  rewrite (check_for_keywords_text _ _ _ _ _ _ Hhtml Htext). cbn zeta.
  eexists. split; [reflexivity|].
  assert (Hsub : (scan_lines (search_strings cfg) (text_lines text) (seen_matches st)).1
                 `sublist_of` text_lines text) by apply scan_sublist.
  split; [exact Hsub|].
  split; [|split].
  - etrans; [exact Hsub|]. unfold text_lines.
    generalize (PyStr.split_on newline text). intros raw.
    induction raw as [|x raw IH]; simpl; [constructor|].
    destruct (PyStr.truthy (PyStr.strip x)); simpl.
    + now apply sublist_skip.
    + now apply sublist_cons.
  - apply scan_select_all.
  - intros line. rewrite scan_select_all, elem_of_select_new.
    split; intros (pre & post & Hl & Hf); exists pre, post; (split; [exact Hl|]);
      cbn [app] in *; now apply is_first_new_spec.
Qed.

Lemma new_matches_keep_source_order_witness :
  exists new,
    result_of (check_for_keywords Some demo_cfg true (Some demo_page) demo_state)
    = Return (nonempty new, new)
    /\ new `sublist_of` text_lines demo_page
    /\ new = select_new (search_strings demo_cfg) (seen_matches demo_state) []
                        (text_lines demo_page)
    /\ "New Pickup: Alpha Widget" ∈ new.
Proof.
  destruct (new_matches_keep_source_order
              Some demo_cfg true demo_page demo_page demo_state eq_refl eq_refl)
    as (new & Hres & Hsub & _ & Hsel & _).
  exists new. split; [exact Hres|]. split; [exact Hsub|]. split; [exact Hsel|].
  rewrite Hsel. vm_compute. left.
Defined.

(** C9. Within one call to the keyword check, when several matching lines
    share a fingerprint that was not seen before, the first of them is
    returned and none of the later ones is; the fingerprints of the
    returned lines are pairwise distinct. *)
Theorem first_occurrence_only
    (get_text : string -> option string) (cfg : config) (w : bool)
    (html text : string) (st : state) (pre post : list string) (a : string)
    (Hhtml : PyStr.truthy html = true) (Htext : get_text html = Some text)
    (Hlines : text_lines text = pre ++ a :: post)
    (Ha : line_matches (search_strings cfg) a = true)
    (Hnew : fingerprint a ∉ seen_matches st)
    (Hfirst : forall l, l ∈ pre -> line_matches (search_strings cfg) l = true ->
                        fingerprint l <> fingerprint a) :
  exists rest,
    result_of (check_for_keywords get_text cfg w (Some html) st)
    = Return (true,
              (scan_lines (search_strings cfg) pre (seen_matches st)).1 ++ a :: rest)
    /\ rest `sublist_of` post
    /\ (forall b, b ∈ rest -> fingerprint b <> fingerprint a)
    /\ NoDup (fingerprint <$>
                (scan_lines (search_strings cfg) pre (seen_matches st)).1 ++ a :: rest).
Proof.
  rewrite (check_for_keywords_text _ _ _ _ _ _ Hhtml Htext). cbn zeta.
  unfold result_of. cbn [fst].
  pose proof (scan_nodup (search_strings cfg) (text_lines text) (seen_matches st)) as Hnd.
  rewrite Hlines in *. rewrite scan_app in *. cbn [fst] in *.
  set (seen1 := (scan_lines (search_strings cfg) pre (seen_matches st)).2) in *.
  assert (Hfresh : fingerprint a ∉ seen1).
  { subst seen1. rewrite scan_seen. intros [Hin|Hin]%elem_of_union; [easy|].
    apply elem_of_list_to_set, list_elem_of_fmap in Hin as (l & Hl & Hin).
    pose proof (scan_new_fresh _ _ _ _ Hin) as [Hm _].
    apply (Hfirst l); [|assumption|now symmetry].
    eapply sublist_subseteq; [apply scan_sublist | exact Hin]. }
  simpl in *. rewrite Ha in *. rewrite decide_False in * by assumption.
  pose proof (scan_sublist (search_strings cfg) post ({[fingerprint a]} ∪ seen1)) as Hsub.
  pose proof (scan_new_fresh (search_strings cfg) post ({[fingerprint a]} ∪ seen1)) as Hfr.
  destruct (scan_lines (search_strings cfg) post ({[fingerprint a]} ∪ seen1))
    as [rest seen2]. cbn [fst] in *.
  exists rest. split.
  - f_equal. f_equal. destruct (scan_lines (search_strings cfg) pre (seen_matches st)).1;
      reflexivity.
  - split; [exact Hsub|]. split; [|exact Hnd].
    intros b Hb. destruct (Hfr b Hb) as [_ Hnot]. set_solver.
Qed.

Lemma first_occurrence_only_witness :
  exists rest,
    result_of (check_for_keywords Some demo_cfg true
                 (Some ("New Pickup: Alpha" +:+ nl +:+ "new  pickup:  ALPHA"))
                 demo_state)
    = Return (true, [] ++ "New Pickup: Alpha" :: rest)
    /\ rest `sublist_of` ["new  pickup:  ALPHA"]
    /\ (forall b, b ∈ rest -> fingerprint b <> fingerprint "New Pickup: Alpha").
Proof.
  destruct (first_occurrence_only Some demo_cfg true
              ("New Pickup: Alpha" +:+ nl +:+ "new  pickup:  ALPHA")
              ("New Pickup: Alpha" +:+ nl +:+ "new  pickup:  ALPHA")
              demo_state [] ["new  pickup:  ALPHA"] "New Pickup: Alpha"
              eq_refl eq_refl eq_refl eq_refl)
    as (rest & H1 & H2 & H3 & _).
  - simpl. set_solver.
  - intros l Hl. inversion Hl.
  - exists rest. auto.
Defined.

(** ** One iteration of the loop *)

Section LoopFacts.

Variable get_text : string -> option string.
Variable cfg : config.

Lemma fetch_and_check_unexpected (env : iter_env) (st : state) :
  fetch_res env = FetchUnexpected ->
  fetch_and_check get_text cfg env st = (Raise RuntimeError, st, []).
Proof. intros H. unfold fetch_and_check, bind, fetch_page_content. now rewrite H. Qed.

Lemma fetch_and_check_no_content (env : iter_env) (st : state) :
  fetch_res env = FetchTimeout \/ fetch_res env = FetchRequestError
  \/ (exists body, fetch_res env = FetchOk body /\ PyStr.truthy body = false) ->
  exists evs,
    fetch_and_check get_text cfg env st
    = (Return tt,
       mkState (seen_matches st) (seen_matches_file st) (consecutive_errors st + 1),
       evs)
    /\ (evs = [] \/ evs = [EvLog LvlError]).
Proof.
  unfold fetch_and_check, bind, fetch_page_content.
  intros [H|[H|(body & H & Hb)]]; rewrite H; cbn; rewrite ?Hb; cbn; eauto.
Qed.

Lemma fetch_and_check_parse_error (env : iter_env) (st : state) (body : string) :
  fetch_res env = FetchOk body -> PyStr.truthy body = true -> get_text body = None ->
  fetch_and_check get_text cfg env st
  = (Return tt, mkState (seen_matches st) (seen_matches_file st) 0, [EvLog LvlError]).
Proof.
  intros H Hb Hg. unfold fetch_and_check, bind, fetch_page_content. rewrite H.
  cbn -[check_for_keywords]. rewrite Hb.
  rewrite (check_for_keywords_parse_error _ _ _ _ _ Hb Hg). reflexivity.
Qed.

Lemma fetch_and_check_text (env : iter_env) (st : state) (body text : string) :
  fetch_res env = FetchOk body -> PyStr.truthy body = true ->
  get_text body = Some text ->
  fetch_and_check get_text cfg env st
  = let r := scan_lines (search_strings cfg) (text_lines text) (seen_matches st) in
    (Return tt,
     mkState r.2
       (if nonempty r.1 && write_ok env then Stored r.2 else seen_matches_file st)
       (if nonempty r.1 && negb (send_ok env) then consecutive_errors st + 1 else 0),
     check_events r.1 r.2 (write_ok env) ++ send_events cfg r.1 (send_ok env)).
Proof.
  intros H Hb Hg. unfold fetch_and_check, bind, fetch_page_content. rewrite H.
  cbn -[check_for_keywords]. rewrite Hb.
  rewrite (check_for_keywords_text _ _ _ _ _ _ Hb Hg). cbn zeta.
  destruct (scan_lines (search_strings cfg) (text_lines text) (seen_matches st))
    as [new seen'].
  destruct new as [|l new]; [reflexivity|].
  destruct (write_ok env), (send_ok env); reflexivity.
Qed.

(** The five ways an iteration can go before the back-off decision. *)
Lemma fetch_and_check_cases (env : iter_env) (st : state) :
  fetch_res env = FetchUnexpected
  \/ (fetch_res env = FetchTimeout \/ fetch_res env = FetchRequestError
      \/ exists body, fetch_res env = FetchOk body /\ PyStr.truthy body = false)
  \/ (exists body, fetch_res env = FetchOk body /\ PyStr.truthy body = true
                   /\ get_text body = None)
  \/ (exists body text, fetch_res env = FetchOk body /\ PyStr.truthy body = true
                        /\ get_text body = Some text).
Proof.
  destruct (fetch_res env) as [body| | |]; [|tauto..].
  destruct (PyStr.truthy body) eqn:Hb; [|right; left; eauto].
  destruct (get_text body) as [text|] eqn:Hg; [|right; right; left; eauto].
  right; right; right. eauto.
Qed.

Lemma sleep_step_backoff (st : state) :
  5 < consecutive_errors st ->
  sleep_step cfg st
  = (Return tt, mkState (seen_matches st) (seen_matches_file st) 0,
     [EvLog LvlWarning; EvSleep (check_interval cfg * 2)]).
Proof.
  intros H. unfold sleep_step, bind, get. cbn.
  now rewrite (proj2 (Z.ltb_lt _ _) H).
Qed.

Lemma sleep_step_normal (st : state) :
  consecutive_errors st <= 5 ->
  sleep_step cfg st = (Return tt, st, [EvSleep (check_interval cfg)]).
Proof.
  intros H. unfold sleep_step, bind, get. cbn.
  now rewrite (proj2 (Z.ltb_ge _ _) H).
Qed.

Lemma iteration_unexpected (env : iter_env) (st : state) :
  fetch_res env = FetchUnexpected ->
  iteration get_text cfg env st
  = (Return tt,
     mkState (seen_matches st) (seen_matches_file st) (consecutive_errors st + 1),
     [EvLog LvlError; EvSleep (check_interval cfg)]).
Proof.
  intros H. unfold iteration, try_except. unfold bind at 1.
  now rewrite (fetch_and_check_unexpected _ _ H).
Qed.

Lemma iteration_returned (env : iter_env) (st st1 : state) (evs : list event) :
  fetch_and_check get_text cfg env st = (Return tt, st1, evs) ->
  iteration get_text cfg env st
  = (Return tt, state_of (sleep_step cfg st1), evs ++ events_of (sleep_step cfg st1)).
Proof.
  intros H. unfold iteration, try_except. unfold bind at 1. rewrite H.
  destruct (Z_lt_le_dec 5 (consecutive_errors st1)) as [Hlt|Hle].
  - now rewrite (sleep_step_backoff _ Hlt).
  - now rewrite (sleep_step_normal _ Hle).
Qed.

End LoopFacts.

(** ** Runs of the loop *)

Section RunFacts.

Variable get_text : string -> option string.
Variable cfg : config.

Lemma events_of_mk {A} (r : outcome A) (st : state) (evs : list event) :
  events_of (r, st, evs) = evs.
Proof. reflexivity. Qed.

Lemma state_of_mk {A} (r : outcome A) (st : state) (evs : list event) :
  state_of (r, st, evs) = st.
Proof. reflexivity. Qed.

Lemma result_of_mk {A} (r : outcome A) (st : state) (evs : list event) :
  result_of (r, st, evs) = r.
Proof. reflexivity. Qed.

Lemma sleeps_app (a b : list event) : sleeps (a ++ b) = sleeps a ++ sleeps b.
Proof. apply omap_app. Qed.

Lemma check_events_no_sleep (new : list string) (seen' : gset string) (w : bool) :
  sleeps (check_events new seen' w) = [].
Proof. destruct new, w; reflexivity. Qed.

Lemma send_events_no_sleep (new : list string) (ok : bool) :
  sleeps (send_events cfg new ok) = [].
Proof. destruct new; reflexivity. Qed.

(** Before the back-off decision an iteration that does not end in the
    handler returns, sleeps nowhere, and leaves the counter at zero or
    one above its old value. *)
Lemma fetch_and_check_summary (env : iter_env) (st : state) :
  no_unexpected env = true ->
  exists st1 evs,
    fetch_and_check get_text cfg env st = (Return tt, st1, evs)
    /\ sleeps evs = []
    /\ (consecutive_errors st1 = 0
        \/ consecutive_errors st1 = consecutive_errors st + 1).
Proof.
  intros Hno.
  destruct (fetch_and_check_cases get_text env st)
    as [H|[H|[(body & H & Hb & Hg)|(body & text & H & Hb & Hg)]]].
  - unfold no_unexpected in Hno. now rewrite H in Hno.
  - destruct (fetch_and_check_no_content get_text cfg env st H) as (evs & -> & Hev).
    do 2 eexists. split; [reflexivity|]. split; [|now right].
    destruct Hev as [->| ->]; reflexivity.
  - rewrite (fetch_and_check_parse_error _ _ _ _ _ H Hb Hg).
    do 2 eexists. split; [reflexivity|]. split; [reflexivity | now left].
  - rewrite (fetch_and_check_text _ _ _ _ _ _ H Hb Hg). cbn zeta.
    do 2 eexists. split; [reflexivity|]. split.
    + now rewrite sleeps_app, check_events_no_sleep, send_events_no_sleep.
    + cbn [consecutive_errors]. destruct (_ && _); auto.
Qed.

Lemma sleep_step_summary (st : state) :
  exists d,
    sleep_step cfg st
    = (Return tt,
       mkState (seen_matches st) (seen_matches_file st)
         (if 5 <? consecutive_errors st then 0 else consecutive_errors st),
       (if 5 <? consecutive_errors st then [EvLog LvlWarning] else []) ++ [EvSleep d])
    /\ d = (if 5 <? consecutive_errors st
            then check_interval cfg * 2 else check_interval cfg).
Proof.
  eexists. split; [|reflexivity].
  unfold sleep_step, bind, get. cbn.
  destruct (5 <? consecutive_errors st); [reflexivity | now destruct st].
Qed.

(** Every iteration returns, sleeps exactly once, for the interval or
    twice the interval, and raises the counter by at most one. *)
Lemma iteration_summary (env : iter_env) (st : state) :
  exists d,
    result_of (iteration get_text cfg env st) = Return tt
    /\ sleeps (events_of (iteration get_text cfg env st)) = [d]
    /\ (d = check_interval cfg \/ d = check_interval cfg * 2)
    /\ (0 <= consecutive_errors st ->
        0 <= consecutive_errors (state_of (iteration get_text cfg env st))
          <= consecutive_errors st + 1)
    /\ (no_unexpected env = true -> 0 <= consecutive_errors st ->
        consecutive_errors (state_of (iteration get_text cfg env st)) <= 5).
Proof.
  destruct (no_unexpected env) eqn:Hno.
  - destruct (fetch_and_check_summary env st Hno) as (st1 & evs & Hfc & Hsl & Hc).
    rewrite (iteration_returned _ _ _ _ _ _ Hfc).
    destruct (sleep_step_summary st1) as (d & -> & Hd).
    unfold result_of, events_of, state_of. cbn [fst snd consecutive_errors].
    exists d. split; [reflexivity|]. split.
    { rewrite !sleeps_app, Hsl. now destruct (5 <? consecutive_errors st1). }
    split; [subst d; destruct (5 <? consecutive_errors st1); auto|].
    destruct (Z.ltb_spec 5 (consecutive_errors st1)); split; intros; lia.
  - assert (Hf : fetch_res env = FetchUnexpected).
    { unfold no_unexpected in Hno. now destruct (fetch_res env). }
    rewrite (iteration_unexpected _ _ _ _ Hf).
    exists (check_interval cfg). unfold result_of, events_of, state_of. cbn.
    repeat split; auto; try lia; discriminate.
Qed.

Lemma monitor_loop_cons (env : iter_env) (rest : list iter_env) (st : state) :
  monitor_loop get_text cfg (env :: rest) st
  = let r1 := iteration get_text cfg env st in
    let r2 := monitor_loop get_text cfg rest (state_of r1) in
    (result_of r2, state_of r2, events_of r1 ++ events_of r2).
Proof.
  cbn [monitor_loop]. unfold bind at 1.
  destruct (iteration_summary env st) as (d & Hr & _).
  destruct (iteration get_text cfg env st) as [[res st1] evs].
  unfold result_of in Hr. cbn in Hr. subst res. cbn zeta.
  unfold state_of, result_of, events_of. cbn [fst snd].
  now destruct (monitor_loop get_text cfg rest st1) as [[? ?] ?].
Qed.

Lemma monitor_loop_returns (envs : list iter_env) (st : state) :
  result_of (monitor_loop get_text cfg envs st) = Return tt.
Proof.
  revert st. induction envs as [|env rest IH]; intros st; [reflexivity|].
  rewrite monitor_loop_cons. cbn zeta. rewrite result_of_mk. apply IH.
Qed.

Lemma start_monitoring_unfold (envs : list iter_env) (st : state) :
  start_monitoring get_text cfg envs st
  = let r := monitor_loop get_text cfg envs
               (mkState (seen_matches st) (seen_matches_file st) 0) in
    (result_of r, state_of r, EvLog LvlInfo :: events_of r).
Proof.
  unfold start_monitoring, bind, emit, set_errors. cbn.
  now destruct (monitor_loop get_text cfg envs _) as [[? ?] ?].
Qed.

(** A failed iteration: one sleep, doubled when the counter passes 5. *)
Lemma failed_iteration_step (env : iter_env) (st : state) :
  iter_failed get_text cfg env st = true ->
  let r := iteration get_text cfg env st in
  sleeps (events_of r)
  = [if 5 <? consecutive_errors st + 1
     then check_interval cfg * 2 else check_interval cfg]
  /\ consecutive_errors (state_of r)
     = (if 5 <? consecutive_errors st + 1 then 0 else consecutive_errors st + 1).
Proof.
  unfold iter_failed. intros Hf.
  destruct (no_unexpected env) eqn:Hno.
  - destruct (fetch_and_check_summary env st Hno) as (st1 & evs & Hfc & Hsl & _).
    rewrite Hfc in Hf. apply bool_decide_eq_true in Hf.
    cbn zeta. rewrite (iteration_returned _ _ _ _ _ _ Hfc).
    destruct (sleep_step_summary st1) as (d & -> & Hd).
    unfold events_of, state_of. cbn [fst snd consecutive_errors].
    subst d. rewrite !sleeps_app, Hsl, !Hf.
    now destruct (5 <? consecutive_errors st + 1).
  - assert (Hfr : fetch_res env = FetchUnexpected).
    { unfold no_unexpected in Hno. now destruct (fetch_res env). }
    now rewrite (fetch_and_check_unexpected _ _ _ _ Hfr) in Hf.
Qed.

Lemma streak_run (envs : list iter_env) (st : state) :
  streak_of_failures get_text cfg envs st = true ->
  let r := monitor_loop get_text cfg envs st in
  sleeps (events_of r)
  = backoff_sleeps (check_interval cfg) (consecutive_errors st) (length envs)
  /\ consecutive_errors (state_of r)
     = backoff_counter (consecutive_errors st) (length envs).
Proof.
  revert st. induction envs as [|env rest IH]; intros st Hs; [now split|].
  cbn [streak_of_failures] in Hs. apply andb_prop in Hs as [Hf Hs].
  destruct (failed_iteration_step env st Hf) as [Hsl Hc].
  destruct (IH _ Hs) as [IHs IHc].
  rewrite monitor_loop_cons. cbn zeta.
  rewrite events_of_mk, state_of_mk. cbn [length backoff_sleeps backoff_counter].
  rewrite sleeps_app, Hsl, IHs, IHc, Hc.
  now destruct (5 <? consecutive_errors st + 1).
Qed.

End RunFacts.

(** ** Claims about the polling loop *)

(** C4. At the back-off decision a counter above 5 gives one sleep of
    twice the configured interval and a reset of the counter to zero; a
    counter of exactly 5 gives the normal interval.  Six failed iterations
    in a row, starting from zero, sleep the interval five times and the
    doubled interval once, and leave the counter at zero. *)
Theorem backoff_is_flat_doubling
    (get_text : string -> option string) (cfg : config)
    (envs : list iter_env) (st : state)
    (Hzero : consecutive_errors st = 0) (Hlen : length envs = 6%nat)
    (Hfail : streak_of_failures get_text cfg envs st = true) :
  let r := monitor_loop get_text cfg envs st in
  let i := check_interval cfg in
  sleeps (events_of r) = [i; i; i; i; i; i * 2]
  /\ consecutive_errors (state_of r) = 0
  /\ (forall st', 5 < consecutive_errors st' ->
        sleep_step cfg st'
        = (Return tt, mkState (seen_matches st') (seen_matches_file st') 0,
           [EvLog LvlWarning; EvSleep (i * 2)]))
  /\ (forall st', consecutive_errors st' = 5 ->
        sleep_step cfg st' = (Return tt, st', [EvSleep i])).
Proof.
  cbn zeta. destruct (streak_run get_text cfg envs st Hfail) as [Hs Hc].
  rewrite Hs, Hc, Hzero, Hlen.
  split; [reflexivity|]. split; [reflexivity|]. split.
  - intros st' H. now apply sleep_step_backoff.
  - intros st' H. apply sleep_step_normal. lia.
Qed.

Lemma backoff_is_flat_doubling_witness :
  sleeps (events_of (monitor_loop Some demo_cfg
                       (replicate 6 (demo_env FetchTimeout true)) demo_state))
  = [300; 300; 300; 300; 300; 600]
  /\ consecutive_errors
       (state_of (monitor_loop Some demo_cfg
                    (replicate 6 (demo_env FetchTimeout true)) demo_state)) = 0.
Proof.
  pose proof (backoff_is_flat_doubling Some demo_cfg
                (replicate 6 (demo_env FetchTimeout true)) demo_state
                eq_refl eq_refl eq_refl) as (Hs & Hc & _).
  split; [exact Hs | exact Hc].
Defined.

(** C5 as stated fails: the fetch returns content, the keyword check runs
    and finds a new line, the send fails, and the counter is 1, not 0,
    when the back-off decision is reached. *)
Lemma counter_reset_regardless_of_send_counterexample :
  fetch_res (demo_env (FetchOk demo_page) false) = FetchOk demo_page
  /\ result_of (check_for_keywords Some demo_cfg true (Some demo_page) demo_state)
     = Return (true, ["New Pickup: Alpha Widget"])
  /\ send_ok (demo_env (FetchOk demo_page) false) = false
  /\ consecutive_errors
       (state_of (fetch_and_check Some demo_cfg
                    (demo_env (FetchOk demo_page) false) demo_state)) = 1
  /\ consecutive_errors
       (state_of (fetch_and_check Some demo_cfg
                    (demo_env (FetchOk demo_page) false) demo_state)) <> 0.
Proof. repeat split; vm_compute; congruence. Qed.

(** C5, amended.  In an iteration whose fetch returned content and whose
    keyword check ran, the counter reaches the back-off decision at zero
    when no new line was found or the notification was sent, and one above
    its old value when new lines were found and the send failed. *)
Theorem counter_after_successful_check
    (get_text : string -> option string) (cfg : config)
    (env : iter_env) (st : state) (body text : string)
    (Hfetch : fetch_res env = FetchOk body)
    (Hbody : PyStr.truthy body = true) (Htext : get_text body = Some text) :
  let new := (scan_lines (search_strings cfg) (text_lines text) (seen_matches st)).1 in
  let r := fetch_and_check get_text cfg env st in
  result_of r = Return tt
  /\ (new = [] -> consecutive_errors (state_of r) = 0)
  /\ (new <> [] -> send_ok env = true -> consecutive_errors (state_of r) = 0)
  /\ (new <> [] -> send_ok env = false ->
      consecutive_errors (state_of r) = consecutive_errors st + 1).
Proof.
  cbn zeta. rewrite (fetch_and_check_text _ _ _ _ _ _ Hfetch Hbody Htext). cbn zeta.
  rewrite result_of_mk, state_of_mk. cbn [consecutive_errors].
  split; [reflexivity|].
  destruct (scan_lines (search_strings cfg) (text_lines text) (seen_matches st)).1
    as [|l new]; cbn [nonempty andb].
  - repeat split; congruence.
  - split; [discriminate|]. split; intros _ ->; reflexivity.
Qed.

Lemma counter_after_successful_check_witness :
  consecutive_errors
    (state_of (fetch_and_check Some demo_cfg
                 (demo_env (FetchOk demo_page) true) demo_state)) = 0
  /\ consecutive_errors
       (state_of (fetch_and_check Some demo_cfg
                    (demo_env (FetchOk demo_page) false) demo_state)) = 0 + 1.
Proof.
  split.
  - apply (counter_after_successful_check Some demo_cfg
             (demo_env (FetchOk demo_page) true) demo_state demo_page demo_page
             eq_refl eq_refl eq_refl); [discriminate | reflexivity].
  - apply (counter_after_successful_check Some demo_cfg
             (demo_env (FetchOk demo_page) false) demo_state demo_page demo_page
             eq_refl eq_refl eq_refl); [discriminate | reflexivity].
Defined.

Section PersistFacts.

Variable get_text : string -> option string.
Variable cfg : config.

Lemma sleep_step_quiet (st : state) :
  Forall (fun e => is_save e = false /\ is_send e = false)
         (events_of (sleep_step cfg st))
  /\ seen_matches (state_of (sleep_step cfg st)) = seen_matches st
  /\ seen_matches_file (state_of (sleep_step cfg st)) = seen_matches_file st.
Proof.
  destruct (sleep_step_summary cfg st) as (d & -> & _).
  rewrite events_of_mk, state_of_mk.
  destruct (5 <? consecutive_errors st); repeat constructor.
Qed.

Lemma send_events_no_save (new : list string) (ok : bool) :
  Forall (fun e => is_save e = false) (send_events cfg new ok).
Proof. destruct new; repeat constructor. Qed.

End PersistFacts.

(** C6. In an iteration in which the keyword check adds a fingerprint to
    the seen-matches set, [save_seen_matches] is called exactly once, with
    the full set, before the notification is attempted; a write that
    succeeds leaves the full set in the file.  In an iteration that adds no
    fingerprint there is no save (and no notification). *)
Theorem persist_once_before_notify
    (get_text : string -> option string) (cfg : config)
    (env : iter_env) (st : state) :
  let r := iteration get_text cfg env st in
  (seen_matches (state_of r) <> seen_matches st ->
     exists pre post,
       events_of r
       = pre ++ EvSave (seen_matches (state_of r)) (write_ok env) :: post
       /\ Forall (fun e => is_save e = false /\ is_send e = false) pre
       /\ Forall (fun e => is_save e = false) post
       /\ (exists e, e ∈ post /\ is_send e = true)
       /\ (write_ok env = true ->
           seen_matches_file (state_of r) = Stored (seen_matches (state_of r))))
  /\ (seen_matches (state_of r) = seen_matches st ->
      Forall (fun e => is_save e = false /\ is_send e = false) (events_of r)).
Proof.
  cbn zeta.
  destruct (fetch_and_check_cases get_text env st)
    as [H|[H|[(body & H & Hb & Hg)|(body & text & H & Hb & Hg)]]].
  - rewrite (iteration_unexpected _ _ _ _ H). rewrite events_of_mk, state_of_mk.
    cbn [seen_matches]. split; [congruence|]. intros _. repeat constructor.
  - destruct (fetch_and_check_no_content get_text cfg env st H) as (evs & Hfc & Hev).
    rewrite (iteration_returned _ _ _ _ _ _ Hfc). rewrite events_of_mk, state_of_mk.
    destruct (sleep_step_quiet cfg
                (mkState (seen_matches st) (seen_matches_file st)
                   (consecutive_errors st + 1))) as (Hq & -> & _).
    cbn [seen_matches]. split; [congruence|]. intros _.
    apply Forall_app. split; [|exact Hq].
    destruct Hev as [->| ->]; repeat constructor.
  - pose proof (fetch_and_check_parse_error _ cfg _ st _ H Hb Hg) as Hfc.
    rewrite (iteration_returned _ _ _ _ _ _ Hfc). rewrite events_of_mk, state_of_mk.
    destruct (sleep_step_quiet cfg
                (mkState (seen_matches st) (seen_matches_file st) 0)) as (Hq & -> & _).
    cbn [seen_matches]. split; [congruence|]. intros _.
    apply Forall_app. split; [repeat constructor | exact Hq].
  - pose proof (fetch_and_check_text _ cfg _ st _ _ H Hb Hg) as Hfc. cbn zeta in Hfc.
    rewrite (iteration_returned _ _ _ _ _ _ Hfc). rewrite events_of_mk, state_of_mk.
    pose proof (scan_changed_iff (search_strings cfg) (text_lines text) (seen_matches st))
      as Hch.
    set (r := scan_lines (search_strings cfg) (text_lines text) (seen_matches st)) in *.
    match goal with |- context [sleep_step cfg ?s] =>
      destruct (sleep_step_quiet cfg s) as (Hq & -> & ->);
      generalize dependent (events_of (sleep_step cfg s)) end.
    intros sl Hq. cbn [seen_matches seen_matches_file].
    destruct r.1 as [|l new] eqn:Hnew.
    + split; [intros Hne; exfalso; apply Hne, Hch; reflexivity|].
      intros _. exact Hq.
    + split; [intros _ | intros Heq; apply Hch in Heq; discriminate].
      cbn [check_events nonempty send_events andb].
      exists [], ((if write_ok env then [] else [EvLog LvlError])
                  ++ [EvSend (email_title l) (email_body cfg (l :: new)) (send_ok env);
                      EvLog (if send_ok env then LvlInfo else LvlError)] ++ sl).
      split; [now rewrite <- !app_assoc|]. split; [constructor|]. split.
      * apply Forall_app. split; [destruct (write_ok env); repeat constructor|].
        apply Forall_app. split; [repeat constructor|].
        eapply Forall_impl; [exact Hq|]. now intros e [? _].
      * split; [|now intros ->].
        exists (EvSend (email_title l) (email_body cfg (l :: new)) (send_ok env)).
        split; [|reflexivity].
        apply elem_of_app. right. left.
Qed.

Lemma persist_once_before_notify_witness :
  exists pre post,
    events_of (iteration Some demo_cfg (demo_env (FetchOk demo_page) true) demo_state)
    = pre ++ EvSave {["new pickup: alpha widget"]} true :: post
    /\ Forall (fun e => is_save e = false /\ is_send e = false) pre
    /\ Forall (fun e => is_save e = false) post.
Proof.
  destruct (persist_once_before_notify Some demo_cfg
              (demo_env (FetchOk demo_page) true) demo_state) as [Hadd _].
  destruct Hadd as (pre & post & Hev & Hpre & Hpost & _).
  - vm_compute. discriminate.
  - exists pre, post. split; [|now split]. rewrite Hev. reflexivity.
Defined.

(** ** Claims about the store *)

(** C8. [load_seen_matches] always returns.  With no record on disk it
    leaves the empty set and calls [save_seen_matches] once with the empty
    set, which a successful write turns into a fresh empty record.  When
    creating the directory, reading or decoding fails, it logs an error
    and leaves the empty set. *)
Theorem load_seen_matches_never_raises (env : load_env) (st : state) :
  let r := load_seen_matches env st in
  result_of r = Return tt
  /\ (makedirs_ok env = true -> seen_matches_file st = Absent ->
      seen_matches (state_of r) = ∅
      /\ events_of r
         = EvSave ∅ (load_write_ok env)
             :: (if load_write_ok env then [] else [EvLog LvlError])
      /\ (load_write_ok env = true -> seen_matches_file (state_of r) = Stored ∅))
  /\ (makedirs_ok env = false
      \/ (seen_matches_file st <> Absent
          /\ (read_ok env = false \/ seen_matches_file st = Malformed)) ->
      seen_matches (state_of r) = ∅
      /\ events_of r = [EvLog LvlError]
      /\ seen_matches_file (state_of r) = seen_matches_file st)
  /\ (forall elems, makedirs_ok env = true -> read_ok env = true ->
      seen_matches_file st = Stored elems ->
      seen_matches (state_of r) = elems /\ events_of r = []).
Proof.
  destruct env as [mk rd wr], st as [seen file errs].
  unfold load_seen_matches, try_except, bind, makedirs, read_record,
    save_seen_matches, get, emit, set_seen, set_file, ret, raise,
    result_of, state_of, events_of.
  cbn. destruct mk, rd, wr, file; cbn;
    (split; [reflexivity|]); (split; [|split]);
    try (intros; discriminate); try (intros; repeat split; congruence);
    try (intros [?|[? [?|?]]]; try discriminate; try congruence;
         repeat split; reflexivity).
Qed.

Lemma load_seen_matches_never_raises_witness :
  seen_matches (state_of (load_seen_matches (mkLoadEnv true true true)
                            (mkState {["stale"]} Malformed 0))) = ∅
  /\ seen_matches (state_of (load_seen_matches (mkLoadEnv true true true)
                               (mkState {["stale"]} Absent 0))) = ∅.
Proof.
  split.
  - destruct (load_seen_matches_never_raises (mkLoadEnv true true true)
                (mkState {["stale"]} Malformed 0)) as (_ & _ & Hfail & _).
    apply Hfail. right. split; [discriminate | now right].
  - destruct (load_seen_matches_never_raises (mkLoadEnv true true true)
                (mkState {["stale"]} Absent 0)) as (_ & Habsent & _).
    apply Habsent; reflexivity.
Defined.

(** ** The bound on the counter *)

(** C10 as stated fails: seven iterations that each end in the handler for
    unexpected exceptions leave the counter at 7, above 6; no doubled sleep
    and no reset happens on that path. *)
Lemma counter_never_exceeds_six_counterexample :
  consecutive_errors
    (state_of (start_monitoring Some demo_cfg (replicate 7 unexpected_env) demo_state))
  = 7
  /\ sleeps (events_of (start_monitoring Some demo_cfg
                          (replicate 7 unexpected_env) demo_state))
     = replicate 7 300
  /\ ~ (forall envs,
          consecutive_errors
            (state_of (start_monitoring Some demo_cfg envs demo_state)) <= 6).
Proof.
  split; [vm_compute; reflexivity|]. split; [vm_compute; reflexivity|].
  intros H. specialize (H (replicate 7 unexpected_env)).
  vm_compute in H. now apply H.
Qed.

Section BoundFacts.

Variable get_text : string -> option string.
Variable cfg : config.

Lemma monitor_loop_sleeps (envs : list iter_env) (st : state) :
  Forall (fun d => d = check_interval cfg \/ d = check_interval cfg * 2)
         (sleeps (events_of (monitor_loop get_text cfg envs st)))
  /\ length (sleeps (events_of (monitor_loop get_text cfg envs st))) = length envs.
Proof.
  revert st. induction envs as [|env rest IH]; intros st.
  - split; [constructor | reflexivity].
  - rewrite monitor_loop_cons. cbn zeta. rewrite events_of_mk, sleeps_app.
    destruct (iteration_summary get_text cfg env st) as (d & _ & -> & Hd & _).
    destruct (IH (state_of (iteration get_text cfg env st))) as [IHf IHl].
    split; [constructor; assumption | cbn; now rewrite IHl].
Qed.

Lemma monitor_loop_bounded (envs : list iter_env) (st : state) :
  Forall (fun e => no_unexpected e = true) envs ->
  0 <= consecutive_errors st <= 5 ->
  0 <= consecutive_errors (state_of (monitor_loop get_text cfg envs st)) <= 5.
Proof.
  revert st. induction envs as [|env rest IH]; intros st Hno Hb; [exact Hb|].
  apply Forall_cons in Hno as [He Hno].
  rewrite monitor_loop_cons. cbn zeta. rewrite state_of_mk.
  apply IH; [assumption|].
  destruct (iteration_summary get_text cfg env st) as (d & _ & _ & _ & Hinc & Hle).
  specialize (Hinc (proj1 Hb)). specialize (Hle He (proj1 Hb)). lia.
Qed.

Lemma monitor_loop_nonneg (envs : list iter_env) (st : state) :
  0 <= consecutive_errors st ->
  0 <= consecutive_errors (state_of (monitor_loop get_text cfg envs st)).
Proof.
  revert st. induction envs as [|env rest IH]; intros st H0; [exact H0|].
  rewrite monitor_loop_cons. cbn zeta. rewrite state_of_mk. apply IH.
  destruct (iteration_summary get_text cfg env st) as (d & _ & _ & _ & Hinc & _).
  apply (Hinc H0).
Qed.

End BoundFacts.

(** C10, amended.  Each iteration raises the counter by at most one and
    sleeps once, for the configured interval or for twice it, never more.
    A counter above 5 that reaches the back-off decision is reset to zero
    after the doubled sleep.  As long as no iteration ends in the handler
    for unexpected exceptions, the counter is at most 6 at the back-off
    decision and at most 5 after every iteration.  An iteration that ends
    in that handler raises the counter by one and sleeps the configured
    interval, whatever the counter is: the handler neither tests the
    threshold nor resets the counter.  The counter is never negative. *)
Theorem counter_bounded_without_unexpected
    (get_text : string -> option string) (cfg : config)
    (envs : list iter_env) (st : state)
    (Hno : Forall (fun e => no_unexpected e = true) envs) :
  let r := start_monitoring get_text cfg envs st in
  let i := check_interval cfg in
  0 <= consecutive_errors (state_of r) <= 5
  /\ Forall (fun d => d = i \/ d = i * 2) (sleeps (events_of r))
  /\ length (sleeps (events_of r)) = length envs
  /\ (forall envs' st',
        Forall (fun d => d = i \/ d = i * 2)
               (sleeps (events_of (start_monitoring get_text cfg envs' st'))))
  /\ (forall env st', 0 <= consecutive_errors st' ->
        consecutive_errors (state_of (iteration get_text cfg env st'))
        <= consecutive_errors st' + 1)
  /\ (forall env st', no_unexpected env = true ->
        0 <= consecutive_errors st' <= 5 ->
        consecutive_errors (state_of (fetch_and_check get_text cfg env st')) <= 6)
  /\ (forall st', 5 < consecutive_errors st' ->
        sleep_step cfg st'
        = (Return tt, mkState (seen_matches st') (seen_matches_file st') 0,
           [EvLog LvlWarning; EvSleep (i * 2)]))
  /\ (forall st', consecutive_errors st' <= 5 ->
        sleep_step cfg st' = (Return tt, st', [EvSleep i]))
  /\ (forall env st', fetch_res env = FetchUnexpected ->
        iteration get_text cfg env st'
        = (Return tt,
           mkState (seen_matches st') (seen_matches_file st')
             (consecutive_errors st' + 1),
           [EvLog LvlError; EvSleep i]))
  /\ (forall envs' st',
        0 <= consecutive_errors (state_of (start_monitoring get_text cfg envs' st'))).
Proof.
  cbn zeta. rewrite start_monitoring_unfold. cbn zeta.
  rewrite state_of_mk, events_of_mk.
  change (sleeps (EvLog LvlInfo :: ?l)) with (sleeps l).
  destruct (monitor_loop_sleeps get_text cfg envs
              (mkState (seen_matches st) (seen_matches_file st) 0)) as [Hf Hl].
  split; [apply monitor_loop_bounded; [assumption | cbn; lia]|].
  split; [exact Hf|]. split; [exact Hl|].
  split; [|split; [|split; [|split; [|split; [|split]]]]].
  - intros envs' st'. rewrite start_monitoring_unfold. cbn zeta.
    rewrite events_of_mk. change (sleeps (EvLog LvlInfo :: ?l)) with (sleeps l).
    apply monitor_loop_sleeps.
  - intros env st' H0.
    destruct (iteration_summary get_text cfg env st') as (d & _ & _ & _ & Hinc & _).
    apply (Hinc H0).
  - intros env st' He Hb.
    destruct (fetch_and_check_summary get_text cfg env st' He)
      as (st1 & evs & -> & _ & Hc).
    rewrite state_of_mk. lia.
  - intros st'. apply sleep_step_backoff.
  - intros st'. apply sleep_step_normal.
  - intros env st'. apply iteration_unexpected.
  - intros envs' st'. rewrite start_monitoring_unfold. cbn zeta.
    rewrite state_of_mk. apply monitor_loop_nonneg. cbn. lia.
Qed.

Lemma counter_bounded_without_unexpected_witness :
  0 <= consecutive_errors
         (state_of (start_monitoring Some demo_cfg
                      (replicate 9 (demo_env FetchTimeout true)) demo_state)) <= 5.
Proof.
  apply (counter_bounded_without_unexpected Some demo_cfg
           (replicate 9 (demo_env FetchTimeout true)) demo_state).
  repeat constructor.
Defined.

(** ** The scenarios of the specification, evaluated *)

Example scenario_one_new_match :
  result_of (check_for_keywords Some demo_cfg true (Some demo_page) demo_state)
  = Return (true, ["New Pickup: Alpha Widget"])
  /\ fingerprint "New Pickup: Alpha Widget" = "new pickup: alpha widget".
Proof. split; vm_compute; reflexivity. Qed.

Example scenario_second_run_is_empty :
  result_of (check_for_keywords Some demo_cfg true (Some demo_page)
               (state_of (check_for_keywords Some demo_cfg true (Some demo_page)
                            demo_state)))
  = Return (false, []).
Proof. vm_compute. reflexivity. Qed.

Example scenario_page_order :
  let page := "zeta pickup alpha" +:+ nl +:+ "no match here" +:+ nl
              +:+ "  Beta Alpha PICKUP  " +:+ nl +:+ "ZETA   pickup  alpha"
              +:+ nl +:+ "alpha pickup first" in
  result_of (check_for_keywords Some demo_cfg true (Some page) demo_state)
  = Return (true, ["zeta pickup alpha"; "Beta Alpha PICKUP"; "alpha pickup first"]).
Proof. vm_compute. reflexivity. Qed.

Example scenario_and_semantics :
  line_matches ["alpha"; "beta"] "only alpha here" = false
  /\ line_matches ["alpha"; "beta"] "BETA then Alphabet" = true.
Proof. split; reflexivity. Qed.

Example scenario_five_failures_then_success :
  let envs := replicate 5 (demo_env FetchTimeout true)
              ++ [demo_env (FetchOk "nothing of interest") true] in
  sleeps (events_of (start_monitoring Some demo_cfg envs demo_state))
  = replicate 6 300
  /\ consecutive_errors (state_of (start_monitoring Some demo_cfg envs demo_state)) = 0.
Proof. split; vm_compute; reflexivity. Qed.

Example scenario_python_whitespace :
  PyStr.split "  Foo   Bar  baz " = ["Foo"; "Bar"; "baz"]
  /\ PyStr.strip "   a b   " = "a b"
  /\ PyStr.split_on "," "a,,b," = ["a"; EmptyString; "b"; EmptyString].
Proof. repeat split. Qed.

(** * Further properties of the code *)

(** ** Trimming, splitting and joining *)

Section TrimFacts.

Lemma lstrip_first (s : string) (c : ascii) :
  first_char (PyStr.lstrip s) = Some c -> PyStr.is_space c = false.
Proof.
  induction s as [|x s IH]; simpl; [discriminate|].
  destruct (PyStr.is_space x) eqn:Hx; [exact IH|].
  simpl. intros [= <-]. exact Hx.
Qed.

Lemma rstrip_cons (x : ascii) (s : string) :
  PyStr.rstrip (String x s)
  = match PyStr.rstrip s with
    | EmptyString => if PyStr.is_space x then EmptyString else String x EmptyString
    | r => String x r
    end.
Proof. reflexivity. Qed.

Lemma rstrip_last (s : string) (c : ascii) :
  last_char (PyStr.rstrip s) = Some c -> PyStr.is_space c = false.
Proof.
  induction s as [|x s IH]; [discriminate|]. rewrite rstrip_cons.
  destruct (PyStr.rstrip s) as [|y r].
  - destruct (PyStr.is_space x) eqn:Hx; [discriminate|].
    simpl. intros [= <-]. exact Hx.
  - exact IH.
Qed.

Lemma rstrip_first (s : string) (c : ascii) :
  first_char (PyStr.rstrip s) = Some c -> first_char s = Some c.
Proof.
  destruct s as [|x s]; [discriminate|]. rewrite rstrip_cons.
  destruct (PyStr.rstrip s); [destruct (PyStr.is_space x)|]; simpl; congruence.
Qed.

Lemma lstrip_id (s : string) :
  (forall c, first_char s = Some c -> PyStr.is_space c = false) -> PyStr.lstrip s = s.
Proof.
  destruct s as [|x s]; [reflexivity|]. intros H. simpl.
  now rewrite (H x eq_refl).
Qed.

Lemma rstrip_id (s : string) :
  (forall c, last_char s = Some c -> PyStr.is_space c = false) -> PyStr.rstrip s = s.
Proof.
  induction s as [|x s IH]; [reflexivity|]. intros H. rewrite rstrip_cons.
  destruct s as [|y s].
  - simpl. now rewrite (H x eq_refl).
  - rewrite IH by (intros c Hc; apply H; exact Hc). reflexivity.
Qed.

Lemma strip_trimmed (s : string) : trimmed (PyStr.strip s).
Proof.
  unfold trimmed, PyStr.strip. split.
  - intros c Hc. apply rstrip_first in Hc. now apply lstrip_first in Hc.
  - intros c. apply rstrip_last.
Qed.

Lemma strip_id (s : string) : trimmed s -> PyStr.strip s = s.
Proof.
  intros [Hf Hl]. unfold PyStr.strip. rewrite (lstrip_id s Hf). now apply rstrip_id.
Qed.

Lemma str_forall_lstrip (f : ascii -> bool) (s : string) :
  str_forall f s = true -> str_forall f (PyStr.lstrip s) = true.
Proof.
  induction s as [|x s IH]; [reflexivity|]. simpl.
  intros [Hx Hs]%andb_prop. destruct (PyStr.is_space x); [now apply IH|].
  simpl. now rewrite Hx, Hs.
Qed.

Lemma str_forall_rstrip (f : ascii -> bool) (s : string) :
  str_forall f s = true -> str_forall f (PyStr.rstrip s) = true.
Proof.
  induction s as [|x s IH]; [reflexivity|]. rewrite rstrip_cons. simpl.
  intros [Hx Hs]%andb_prop. specialize (IH Hs).
  destruct (PyStr.rstrip s) as [|y r].
  - destruct (PyStr.is_space x); simpl; [reflexivity | now rewrite Hx].
  - change (str_forall f (String x (String y r))) with (f x && str_forall f (String y r)).
    now rewrite Hx, IH.
Qed.

Lemma str_forall_strip (f : ascii -> bool) (s : string) :
  str_forall f s = true -> str_forall f (PyStr.strip s) = true.
Proof. intros H. now apply str_forall_rstrip, str_forall_lstrip. Qed.

Lemma str_forall_app (f : ascii -> bool) (a b : string) :
  str_forall f (a +:+ b) = str_forall f a && str_forall f b.
Proof.
  induction a as [|x a IH]; [reflexivity|]. rewrite app_cons. simpl.
  now rewrite IH, andb_assoc.
Qed.

Lemma split_on_nonempty (sep : ascii) (s : string) : PyStr.split_on sep s <> [].
Proof.
  destruct s as [|c s]; simpl; [discriminate|].
  destruct (decide (c = sep)); [discriminate|].
  destruct (PyStr.split_on sep s); discriminate.
Qed.

Lemma split_on_fields (sep : ascii) (s : string) :
  Forall (fun w => str_forall (fun c => negb (bool_decide (c = sep))) w = true)
         (PyStr.split_on sep s).
Proof.
  induction s as [|c s IH]; simpl; [repeat constructor|].
  destruct (decide (c = sep)) as [->|Hne]; [constructor; [reflexivity | exact IH]|].
  destruct (PyStr.split_on sep s) as [|w ws]; [repeat constructor|].
  - simpl. now rewrite bool_decide_eq_false_2.
  - apply Forall_cons in IH as [Hw Hws]. constructor; [|exact Hws].
    simpl. now rewrite bool_decide_eq_false_2, Hw.
Qed.

Lemma join_split_on (sep : ascii) (s : string) :
  PyStr.join (String sep EmptyString) (PyStr.split_on sep s) = s.
Proof.
  induction s as [|c s IH]; [reflexivity|]. simpl.
  pose proof (split_on_nonempty sep s) as Hne.
  destruct (decide (c = sep)) as [->|Hc].
  - destruct (PyStr.split_on sep s) as [|w ws]; [contradiction|].
    change (PyStr.join (String sep EmptyString) (EmptyString :: w :: ws))
      with (EmptyString +:+ String sep EmptyString
            +:+ PyStr.join (String sep EmptyString) (w :: ws)).
    now rewrite IH.
  - destruct (PyStr.split_on sep s) as [|w ws]; [contradiction|].
    destruct ws as [|w' ws].
    + simpl in *. now rewrite IH.
    + change (PyStr.join (String sep EmptyString) (String c w :: w' :: ws))
        with (String c w +:+ String sep EmptyString
              +:+ PyStr.join (String sep EmptyString) (w' :: ws)).
      change (PyStr.join (String sep EmptyString) (w :: w' :: ws))
        with (w +:+ String sep EmptyString
              +:+ PyStr.join (String sep EmptyString) (w' :: ws)) in IH.
      rewrite app_cons. now rewrite IH.
Qed.

Lemma split_on_free (sep : ascii) (w : string) :
  str_forall (fun c => negb (bool_decide (c = sep))) w = true ->
  PyStr.split_on sep w = [w].
Proof.
  induction w as [|c w IH]; [reflexivity|]. simpl.
  intros [Hc Hw]%andb_prop. apply negb_true_iff, bool_decide_eq_false in Hc.
  rewrite decide_False by assumption. now rewrite (IH Hw).
Qed.

Lemma split_on_app_sep (sep : ascii) (w rest : string) :
  str_forall (fun c => negb (bool_decide (c = sep))) w = true ->
  PyStr.split_on sep (w +:+ String sep EmptyString +:+ rest)
  = w :: PyStr.split_on sep rest.
Proof.
  induction w as [|c w IH].
  - intros _. rewrite app_nil, app_cons, app_nil. simpl.
    now rewrite decide_True.
  - cbn [str_forall]. intros [Hc Hw]%andb_prop.
    apply negb_true_iff, bool_decide_eq_false in Hc.
    rewrite app_cons. cbn [PyStr.split_on]. rewrite decide_False by assumption.
    now rewrite (IH Hw).
Qed.

Lemma split_on_join (sep : ascii) (l : list string) :
  l <> [] ->
  Forall (fun w => str_forall (fun c => negb (bool_decide (c = sep))) w = true) l ->
  PyStr.split_on sep (PyStr.join (String sep EmptyString) l) = l.
Proof.
  induction l as [|w ws IH]; [congruence|]. intros _ [Hw Hws]%Forall_cons.
  destruct ws as [|w' ws].
  - simpl. now apply split_on_free.
  - change (PyStr.join (String sep EmptyString) (w :: w' :: ws))
      with (w +:+ String sep EmptyString
            +:+ PyStr.join (String sep EmptyString) (w' :: ws)).
    rewrite split_on_app_sep by assumption. f_equal. now apply IH.
Qed.

End TrimFacts.

(** X1. Every line the keyword check looks at is non-empty, has no
    whitespace at either end and holds no newline. *)
Theorem text_lines_are_clean (text line : string) (Hin : line ∈ text_lines text) :
  line <> EmptyString /\ trimmed line /\ no_newline line.
Proof.
  unfold text_lines in Hin. apply list_elem_of_omap in Hin as (raw & Hraw & Hl).
  cbn zeta in Hl. destruct (PyStr.truthy (PyStr.strip raw)) eqn:Ht; [|discriminate].
  injection Hl as <-. split; [|split].
  - intros H. now rewrite H in Ht.
  - apply strip_trimmed.
  - apply str_forall_strip.
    pose proof (split_on_fields newline text) as Hf.
    rewrite Forall_forall in Hf. now apply Hf.
Qed.

Lemma text_lines_are_clean_witness :
  "New Pickup: Alpha Widget" <> EmptyString
  /\ trimmed "New Pickup: Alpha Widget" /\ no_newline "New Pickup: Alpha Widget".
Proof.
  apply (text_lines_are_clean demo_page). vm_compute. right. left.
Defined.

(** ** Words and fingerprints *)

Section WordFacts.

Lemma lower_char_idem (c : ascii) :
  PyStr.lower_char (PyStr.lower_char c) = PyStr.lower_char c.
Proof. destruct c as [[] [] [] [] [] [] [] []]; vm_compute; reflexivity. Qed.

Lemma lower_idem (s : string) : PyStr.lower (PyStr.lower s) = PyStr.lower s.
Proof.
  induction s as [|c s IH]; [reflexivity|]. simpl. now rewrite lower_char_idem, IH.
Qed.

Lemma split_go_words (cur s : string) :
  str_forall (fun c => negb (PyStr.is_space c)) cur = true ->
  Forall is_word (PyStr.split_go cur s).
Proof.
  revert cur. induction s as [|c s IH]; intros cur Hcur; simpl.
  - destruct cur; [constructor|]. repeat constructor; [discriminate | exact Hcur].
  - destruct (PyStr.is_space c) eqn:Hc.
    + destruct cur; [now apply IH|].
      constructor; [split; [discriminate | exact Hcur] | now apply IH].
    + apply IH. rewrite str_forall_app, Hcur. simpl. now rewrite Hc.
Qed.

Lemma split_words (s : string) : Forall is_word (PyStr.split s).
Proof. now apply split_go_words. Qed.

Lemma app_nil_r (s : string) : s +:+ EmptyString = s.
Proof. induction s as [|x s IH]; [reflexivity|]. now rewrite app_cons, IH. Qed.

Lemma split_go_word (cur w rest : string) :
  str_forall (fun c => negb (PyStr.is_space c)) w = true ->
  PyStr.split_go cur (w +:+ rest) = PyStr.split_go (cur +:+ w) rest.
Proof.
  revert cur. induction w as [|c w IH]; intros cur.
  - intros _. now rewrite app_nil, app_nil_r.
  - cbn [str_forall]. intros [Hc Hw]%andb_prop. apply negb_true_iff in Hc.
    rewrite app_cons. cbn [PyStr.split_go]. rewrite Hc.
    rewrite (IH _ Hw). now rewrite app_assoc_s.
Qed.

Lemma split_join_words (ws : list string) :
  Forall is_word ws -> PyStr.split (PyStr.join " " ws) = ws.
Proof.
  unfold PyStr.split.
  induction ws as [|w ws IH]; [reflexivity|]. intros [[Hne Hw] Hws]%Forall_cons.
  destruct ws as [|w' ws].
  - cbn [PyStr.join]. rewrite <- (app_nil_r w) at 1.
    rewrite split_go_word by assumption.
    rewrite app_nil. simpl. now destruct w.
  - change (PyStr.join " " (w :: w' :: ws))
      with (w +:+ " " +:+ PyStr.join " " (w' :: ws)).
    rewrite split_go_word by assumption. rewrite app_nil.
    rewrite app_cons, app_nil. cbn [PyStr.split_go].
    change (PyStr.is_space " ") with true. cbn iota.
    destruct w as [|x w]; [contradiction|]. f_equal. now apply IH.
Qed.

Lemma normalize_idem (s : string) : normalize (normalize s) = normalize s.
Proof.
  unfold normalize. now rewrite split_join_words by apply split_words.
Qed.

End WordFacts.

(** X2. A fingerprint is its own fingerprint: normalising twice gives the
    same string as normalising once, so the entries of the seen-matches
    set are fixed points of the normalisation. *)
Theorem fingerprint_is_normal_form (line : string) :
  fingerprint (fingerprint line) = fingerprint line
  /\ (forall terms lines seen fp,
        fp ∈ (scan_lines terms lines seen).2 -> fp ∉ seen -> fingerprint fp = fp).
Proof.
  assert (Hidem : forall l, fingerprint (fingerprint l) = fingerprint l).
  { intros l. unfold fingerprint, normalize.
    set (ws := PyStr.split (PyStr.lower l)).
    assert (Hl : PyStr.lower (PyStr.join " " ws) = PyStr.join " " ws).
    { rewrite <- (join_lower " "). change (PyStr.lower " ") with " ". f_equal.
      subst ws. rewrite split_lower, <- list_fmap_compose.
      apply list_fmap_ext. intros _ x _. apply lower_idem. }
    rewrite Hl. rewrite split_join_words; [reflexivity | apply split_words]. }
  split; [apply Hidem|].
  intros terms lines seen fp Hin Hnot. rewrite scan_seen in Hin.
  apply elem_of_union in Hin as [Hin|Hin]; [contradiction|].
  apply elem_of_list_to_set, list_elem_of_fmap in Hin as (l & -> & _).
  apply Hidem.
Qed.

Lemma fingerprint_is_normal_form_witness :
  fingerprint "new pickup: alpha widget" = "new pickup: alpha widget".
Proof.
  destruct (fingerprint_is_normal_form "New  Pickup: Alpha Widget") as [_ H].
  apply (H ["pickup"] ["New  Pickup: Alpha Widget"] ∅ "new pickup: alpha widget").
  - vm_compute. set_solver.
  - set_solver.
Defined.

(** X3. Matching ignores case on both sides: lowercasing the line, or the
    search terms, beforehand does not change which lines match. *)
Theorem matching_ignores_case (terms : list string) (line : string) :
  line_matches terms (PyStr.lower line) = line_matches terms line
  /\ line_matches (PyStr.lower <$> terms) line = line_matches terms line.
Proof.
  unfold line_matches. cbn zeta. rewrite lower_idem. split; [reflexivity|].
  induction terms as [|t ts IH]; [reflexivity|].
  cbn [fmap list_fmap forallb]. rewrite lower_idem. f_equal. exact IH.
Qed.

(** ** Search terms and the interval *)

Lemma validated_terms_are_good_aux (terms : option string) (l : list string) :
  validate_search_terms terms = Valid l -> l <> [] /\ Forall good_term l.
Proof.
  intros Hvalid.
  unfold validate_search_terms in Hvalid.
  destruct (truthy_opt terms); [|discriminate]. cbn [negb] in Hvalid.
  destruct terms as [t|].
  2: { pose proof (split_on_nonempty comma EmptyString). simpl in Hvalid. discriminate. }
  change (default EmptyString (Some t)) with t in Hvalid.
  pose proof (split_on_nonempty comma t) as Hne.
  pose proof (split_on_fields comma t) as Hf.
  destruct (PyStr.split_on comma t) as [|w ws]; [contradiction|].
  cbn [fmap list_fmap nonempty negb] in Hvalid.
  destruct (existsb _ _) eqn:Hex; [discriminate|]. injection Hvalid as <-.
  split; [discriminate|].
  change (Forall good_term (PyStr.strip <$> w :: ws)).
  rewrite Forall_fmap. rewrite Forall_forall in Hf |- *. intros x Hx.
  unfold good_term, compose. split; [|split].
  - assert (Hlen : (String.length (PyStr.strip x) <? 2)%nat = false).
    { destruct (String.length (PyStr.strip x) <? 2)%nat eqn:Hl; [|reflexivity].
      exfalso. apply not_true_iff_false in Hex. apply Hex.
      apply existsb_exists. exists (PyStr.strip x). split; [|exact Hl].
      apply list_elem_of_In.
      change (PyStr.strip x ∈ PyStr.strip <$> w :: ws).
      apply list_elem_of_fmap. now exists x. }
    apply Nat.ltb_ge in Hlen. exact Hlen.
  - apply strip_trimmed.
  - apply str_forall_strip. now apply Hf.
Qed.


(** X4. Whatever [validate_search_terms] returns is a non-empty list of
    terms that each have at least two characters, no whitespace at either
    end and no comma; so a validated configuration never reaches the
    matcher with an empty term list or an empty term. *)
Theorem validated_terms_are_good (terms : option string) (l : list string)
    (Hvalid : validate_search_terms terms = Valid l) :
  l <> [] /\ Forall good_term l
  /\ exists t, terms = Some t
                /\ l = PyStr.strip <$> PyStr.split_on comma t.
Proof.
  destruct (validated_terms_are_good_aux terms l Hvalid) as [Hne Hgood].
  split; [exact Hne|]. split; [exact Hgood|].
  unfold validate_search_terms in Hvalid.
  destruct terms as [t|]; [|discriminate]. exists t. split; [reflexivity|].
  change (default EmptyString (Some t)) with t in Hvalid.
  destruct (negb (truthy_opt (Some t))); [discriminate|].
  destruct (negb (nonempty _)); [discriminate|].
  destruct (existsb _ _); [discriminate|]. now injection Hvalid as <-.
Qed.

Lemma validated_terms_are_good_witness :
  ["pickup"; "alpha"] <> [] /\ Forall good_term ["pickup"; "alpha"].
Proof.
  destruct (validated_terms_are_good (Some "pickup, alpha") ["pickup"; "alpha"] eq_refl)
    as (H1 & H2 & _).
  split; assumption.
Defined.

(** X5. [validate_search_terms] fails in two ways only: "SEARCH_STRINGS is
    required", exactly when the setting is missing or empty, and "Search
    terms must be at least 2 characters long".  The branch "No valid search
    terms provided" is never taken, because [split] always yields at least
    one field, and no other exception escapes. *)
Theorem search_terms_errors (terms : option string) :
  (validate_search_terms terms = ConfigError "SEARCH_STRINGS is required"
   <-> truthy_opt terms = false)
  /\ validate_search_terms terms <> ConfigError "No valid search terms provided"
  /\ (forall cls, validate_search_terms terms <> Uncaught cls)
  /\ (forall msg, validate_search_terms terms = ConfigError msg ->
        msg = "SEARCH_STRINGS is required"
        \/ msg = "Search terms must be at least 2 characters long").
Proof.
  unfold validate_search_terms.
  destruct (truthy_opt terms) eqn:Ht; cbn [negb].
  - pose proof (split_on_nonempty comma (default EmptyString terms)) as Hne.
    destruct (PyStr.split_on comma (default EmptyString terms)) as [|w ws];
      [contradiction|].
    cbn [fmap list_fmap nonempty negb].
    destruct (existsb _ _).
    + repeat split; try discriminate. intros msg [= <-]. now right.
    + repeat split; try discriminate.
  - repeat split; try discriminate; try reflexivity.
    intros msg [= <-]. now left.
Qed.

Lemma search_terms_errors_witness :
  validate_search_terms (Some ",") 
  = ConfigError "Search terms must be at least 2 characters long"
  /\ validate_search_terms (Some EmptyString) = ConfigError "SEARCH_STRINGS is required".
Proof.
  split; [reflexivity|].
  apply (search_terms_errors (Some EmptyString)). reflexivity.
Defined.

Section TermRoundTrip.

Lemma join_truthy (sep w : string) (ws : list string) :
  w <> EmptyString -> PyStr.truthy (PyStr.join sep (w :: ws)) = true.
Proof.
  intros Hw. destruct w as [|c w]; [contradiction|].
  destruct ws; [reflexivity|].
  change (PyStr.join sep (String c w :: s :: ws))
    with (String c w +:+ sep +:+ PyStr.join sep (s :: ws)).
  now rewrite app_cons.
Qed.

End TermRoundTrip.

(** X6. Writing a list of good terms with commas between them and
    validating the result gives the list back. *)
Theorem search_terms_round_trip (l : list string)
    (Hne : l <> []) (Hgood : Forall good_term l) :
  validate_search_terms (Some (PyStr.join (String comma EmptyString) l)) = Valid l.
Proof.
  unfold validate_search_terms. cbn [truthy_opt].
  change (default EmptyString (Some ?x)) with x.
  destruct l as [|w ws]; [congruence|].
  assert (Hw : w <> EmptyString).
  { apply Forall_cons in Hgood as [[Hlen _] _]. destruct w; [simpl in Hlen; lia | discriminate]. }
  rewrite (join_truthy _ _ _ Hw). cbn [negb].
  rewrite split_on_join; [|discriminate|].
  2: { eapply Forall_impl; [exact Hgood|]. now intros x (_ & _ & Hx). }
  assert (Hstrip : (fun term => PyStr.strip term) <$> w :: ws = w :: ws).
  { rewrite <- (list_fmap_id (w :: ws)) at 2. apply list_fmap_ext.
    intros i x Hx. apply strip_id.
    rewrite Forall_forall in Hgood.
    apply list_elem_of_lookup_2 in Hx. now destruct (Hgood x Hx) as (_ & ? & _). }
  rewrite Hstrip. cbn [nonempty negb].
  assert (Hex : existsb (fun term => (String.length term <? 2)%nat) (w :: ws) = false).
  { apply not_true_is_false. intros (x & Hx & Hl)%existsb_exists.
    rewrite Forall_forall in Hgood. apply list_elem_of_In in Hx.
    destruct (Hgood x Hx) as (Hlen & _). apply Nat.ltb_lt in Hl. lia. }
  now rewrite Hex.
Qed.

Lemma search_terms_round_trip_witness :
  validate_search_terms (Some "pickup,alpha widget") = Valid ["pickup"; "alpha widget"].
Proof.
  apply (search_terms_round_trip ["pickup"; "alpha widget"]); [discriminate|].
  repeat constructor; simpl; try lia; intros c [= <-]; reflexivity.
Defined.

Lemma validated_interval_aux (py_int : string -> option Z) (s : string) (n : Z) :
  validate_interval py_int s = Valid n -> py_int s = Some n /\ 60 <= n <= 86400.
Proof.
  unfold validate_interval. destruct (py_int s) as [m|]; [|discriminate].
  destruct (Z.ltb_spec m 60); [discriminate|].
  destruct (Z.ltb_spec 86400 m); [discriminate|].
  intros [= <-]. split; [reflexivity | lia].
Qed.

(** X7. [validate_interval] returns a number exactly when [int] reads one
    between 60 and 86400 from the setting; every failure, a [ValueError]
    included, comes out as a [ConfigError]. *)
Theorem validated_interval_in_range (py_int : string -> option Z) (s : string) :
  (forall n, validate_interval py_int s = Valid n
             <-> py_int s = Some n /\ 60 <= n <= 86400)
  /\ (forall cls, validate_interval py_int s <> Uncaught cls)
  /\ (py_int s = None ->
      validate_interval py_int s = ConfigError "CHECK_INTERVAL must be a valid number").
Proof.
  unfold validate_interval. destruct (py_int s) as [m|].
  - destruct (Z.ltb_spec m 60); [|destruct (Z.ltb_spec 86400 m)].
    + repeat split; try discriminate; intros; try lia.
      destruct H0 as [[= <-] ?]. lia.
    + repeat split; try discriminate; intros; try lia.
      destruct H1 as [[= <-] ?]. lia.
    + split; [|split; discriminate].
      intros n. split; [intros [= <-]; split; [reflexivity | lia]|].
      now intros [[= <-] _].
  - split; [|split; [discriminate | reflexivity]].
    intros n. split; [discriminate | now intros [? _]].
Qed.

Lemma validated_interval_in_range_witness :
  validate_interval int_of_digits "300" = Valid 300
  /\ validate_interval int_of_digits "soon"
     = ConfigError "CHECK_INTERVAL must be a valid number".
Proof.
  destruct (validated_interval_in_range int_of_digits "300") as (H & _).
  destruct (validated_interval_in_range int_of_digits "soon") as (_ & _ & H').
  split; [apply H; split; [reflexivity | lia] | apply H'; reflexivity].
Defined.

(** ** The regular expression matcher *)

Section RegexFacts.

Lemma app_eq_empty (a b : string) :
  a +:+ b = EmptyString -> a = EmptyString /\ b = EmptyString.
Proof. destruct a; [now rewrite app_nil | rewrite app_cons; discriminate]. Qed.

Lemma app_eq_cons (a b : string) (c : ascii) (s : string) :
  a +:+ b = String c s ->
  (a = EmptyString /\ b = String c s)
  \/ (exists a', a = String c a' /\ s = a' +:+ b).
Proof.
  destruct a as [|x a].
  - rewrite app_nil. now left.
  - rewrite app_cons. intros [= -> <-]. right. now exists a.
Qed.

Lemma nullable_spec (r : regex) : nullable r = true <-> matches r EmptyString.
Proof.
  split.
  - induction r; simpl; try discriminate.
    + constructor.
    + intros [H1 H2]%andb_prop.
      change EmptyString with (EmptyString +:+ EmptyString). constructor; auto.
    + intros [H|H]%orb_prop; [apply MAltL | apply MAltR]; auto.
    + constructor.
  - intros H. remember EmptyString as s eqn:Hs.
    induction H; simpl; try reflexivity; try discriminate.
    + apply app_eq_empty in Hs as [-> ->]. now rewrite IHmatches1, IHmatches2.
    + now rewrite IHmatches.
    + rewrite IHmatches by assumption. apply orb_true_r.
Qed.

Lemma deriv_sound (c : ascii) (r : regex) (s : string) :
  matches (deriv c r) s -> matches r (String c s).
Proof.
  revert s. induction r; intros s H; simpl in H.
  - inversion H.
  - inversion H.
  - destruct (f c) eqn:Hf; inversion H; subst. now constructor.
  - destruct (nullable r1) eqn:Hn.
    + inversion H; subst.
      * match goal with Hm : matches (RSeq _ _) _ |- _ => inversion Hm; subst end.
        rewrite <- app_cons. constructor; auto.
      * change (String c s) with (EmptyString +:+ String c s).
        constructor; [now apply nullable_spec | auto].
    + inversion H; subst. rewrite <- app_cons. constructor; auto.
  - inversion H; subst; [apply MAltL | apply MAltR]; auto.
  - inversion H; subst. rewrite <- app_cons. constructor; auto.
Qed.

Lemma deriv_complete (c : ascii) (r : regex) (s : string) :
  matches r (String c s) -> matches (deriv c r) s.
Proof.
  intros H. remember (String c s) as t eqn:Ht. revert s Ht.
  induction H; intros u Hu; try discriminate.
  - injection Hu as -> <-. simpl. rewrite H. constructor.
  - apply app_eq_cons in Hu as [[-> ->]|(a' & -> & ->)]; simpl.
    + rewrite (proj2 (nullable_spec r1) H). apply MAltR. now apply IHmatches2.
    + destruct (nullable r1).
      * apply MAltL. constructor; auto.
      * constructor; auto.
  - simpl. apply MAltL. auto.
  - simpl. apply MAltR. auto.
  - apply app_eq_cons in Hu as [[-> ->]|(a' & -> & ->)].
    + now apply IHmatches2.
    + simpl. constructor; auto.
Qed.

Lemma accepts_spec (r : regex) (s : string) : accepts r s = true <-> matches r s.
Proof.
  revert r. induction s as [|c s IH]; intros r; simpl.
  - apply nullable_spec.
  - rewrite IH. split; [apply deriv_sound | apply deriv_complete].
Qed.

Lemma class_inv (f : ascii -> bool) (s : string) :
  matches (RClass f) s <-> exists c, s = String c EmptyString /\ f c = true.
Proof.
  split.
  - intros H. inversion H; subst. eauto.
  - intros (c & -> & Hc). now constructor.
Qed.

Lemma star_class (f : ascii -> bool) (s : string) :
  matches (RStar (RClass f)) s <-> str_forall f s = true.
Proof.
  split.
  - intros H. remember (RStar (RClass f)) as r eqn:Hr.
    induction H; try discriminate; [reflexivity|].
    injection Hr as ->. apply class_inv in H as (c & -> & Hc).
    rewrite app_cons, app_nil. simpl. rewrite Hc. now apply IHmatches2.
  - induction s as [|c s IH]; [constructor|]. simpl. intros [Hc Hs]%andb_prop.
    change (String c s) with (String c EmptyString +:+ s).
    constructor; [now constructor | auto].
Qed.

Lemma seq_inv (r1 r2 : regex) (s : string) :
  matches (RSeq r1 r2) s
  <-> exists s1 s2, s = s1 +:+ s2 /\ matches r1 s1 /\ matches r2 s2.
Proof.
  split.
  - intros H. inversion H; subst. eauto.
  - intros (s1 & s2 & -> & H1 & H2). now constructor.
Qed.

Lemma plus_class (f : ascii -> bool) (s : string) :
  matches (rplus (RClass f)) s <-> s <> EmptyString /\ str_forall f s = true.
Proof.
  unfold rplus. split.
  - intros (s1 & s2 & -> & (c & -> & Hc)%class_inv & Hs%star_class)%seq_inv.
    rewrite app_cons, app_nil. split; [discriminate|]. simpl. now rewrite Hc.
  - intros [Hne Hs]. destruct s as [|c s]; [contradiction|].
    simpl in Hs. apply andb_prop in Hs as [Hc Hs].
    change (String c s) with (String c EmptyString +:+ s).
    constructor; [now constructor | now apply star_class].
Qed.

Lemma rchar_inv (c : ascii) (s : string) :
  matches (rchar c) s <-> s = String c EmptyString.
Proof.
  unfold rchar. rewrite class_inv. split.
  - intros (x & -> & Hx). apply bool_decide_eq_true in Hx. now subst.
  - intros ->. exists c. split; [reflexivity | now apply bool_decide_eq_true].
Qed.

Lemma two_or_more (f : ascii -> bool) (s : string) :
  matches (RSeq (RClass f) (RSeq (RClass f) (RStar (RClass f)))) s
  <-> (2 <= String.length s)%nat /\ str_forall f s = true.
Proof.
  rewrite seq_inv. split.
  - intros (s1 & s2 & -> & (c & -> & Hc)%class_inv & H2).
    apply (plus_class f) in H2 as [Hne Hs].
    rewrite app_cons, app_nil. simpl. rewrite Hc, Hs.
    destruct s2; [contradiction | simpl; split; [lia | reflexivity]].
  - intros [Hlen Hs]. destruct s as [|c s]; [simpl in Hlen; lia|].
    simpl in Hs. apply andb_prop in Hs as [Hc Hs].
    exists (String c EmptyString), s. rewrite app_cons, app_nil.
    split; [reflexivity|]. split; [now apply class_inv; eauto|].
    apply (plus_class f). split; [|exact Hs].
    destruct s; [simpl in Hlen; lia | discriminate].
Qed.

Lemma email_pattern_spec (s : string) :
  matches email_pattern s
  <-> exists local domain tld,
        s = local +:+ "@" +:+ domain +:+ "." +:+ tld
        /\ local <> EmptyString /\ str_forall local_class local = true
        /\ domain <> EmptyString /\ str_forall domain_class domain = true
        /\ (2 <= String.length tld)%nat /\ str_forall is_alpha tld = true.
Proof.
  unfold email_pattern. split.
  - intros (l & r1 & -> & Hl & H1)%seq_inv.
    apply seq_inv in H1 as (a & r2 & -> & Ha & H2).
    apply seq_inv in H2 as (d & r3 & -> & Hd & H3).
    apply seq_inv in H3 as (p & t & -> & Hp & Ht).
    apply plus_class in Hl as [? ?]. apply plus_class in Hd as [? ?].
    apply rchar_inv in Ha as ->. apply rchar_inv in Hp as ->.
    apply two_or_more in Ht as [? ?].
    exists l, d, t. repeat split; assumption.
  - intros (l & d & t & -> & Hl1 & Hl2 & Hd1 & Hd2 & Ht1 & Ht2).
    constructor; [now apply plus_class|].
    constructor; [now apply rchar_inv|].
    constructor; [now apply plus_class|].
    constructor; [now apply rchar_inv|].
    now apply two_or_more.
Qed.

Lemma app_nl_inj (a b : string) : a +:+ nl = b +:+ nl -> a = b.
Proof.
  revert b. induction a as [|x a IH]; intros [|y b] H.
  - reflexivity.
  - rewrite app_nil, app_cons in H. unfold nl in H. injection H as _ H.
    destruct b; discriminate.
  - rewrite app_nil, app_cons in H. unfold nl in H. injection H as _ H.
    destruct a; discriminate.
  - rewrite !app_cons in H. injection H as -> H. f_equal. now apply IH.
Qed.

Lemma chomp_spec (s s' : string) : chomp s = Some s' <-> s = s' +:+ nl.
Proof.
  revert s'. induction s as [|c s IH]; intros s'.
  - simpl. split; [discriminate|]. intros H. symmetry in H.
    apply app_eq_empty in H as [_ H]. discriminate.
  - cbn [chomp]. destruct s as [|d s].
    + destruct (decide (c = newline)) as [->|Hc].
      * split; [now intros [= <-]|].
        destruct s' as [|x s']; [reflexivity|]. rewrite app_cons. intros [= _ H].
        symmetry in H. apply app_eq_empty in H as [_ H]. discriminate.
      * split; [discriminate|]. destruct s' as [|x s'].
        -- rewrite app_nil. unfold nl. congruence.
        -- rewrite app_cons. intros [= _ H]. symmetry in H.
           apply app_eq_empty in H as [_ H]. discriminate.
    + destruct (chomp (String d s)) as [t|] eqn:Ht.
      * pose proof (proj1 (IH t) eq_refl) as Hs. split.
        -- intros [= <-]. now rewrite app_cons, <- Hs.
        -- destruct s' as [|x s'].
           ++ rewrite app_nil. unfold nl. discriminate.
           ++ rewrite app_cons. intros [= <- H]. f_equal. f_equal.
              rewrite Hs in H. now apply app_nl_inj.
      * split; [discriminate|]. destruct s' as [|x s'].
        -- rewrite app_nil. unfold nl. discriminate.
        -- rewrite app_cons. intros [= <- H]. apply IH in H. discriminate.
Qed.

End RegexFacts.

(** ** Email addresses *)

Section EmailFacts.

Lemma str_forall_impl (f g : ascii -> bool) (s : string) :
  (forall c, f c = true -> g c = true) ->
  str_forall f s = true -> str_forall g s = true.
Proof.
  intros Hfg. induction s as [|c s IH]; [reflexivity|]. simpl.
  intros [Hc Hs]%andb_prop. now rewrite (Hfg c Hc), IH.
Qed.

Lemma email_chars (c : ascii) :
  local_class c || domain_class c || is_alpha c = true ->
  negb (PyStr.is_space c) = true /\ c <> "@"%char.
Proof.
  destruct c as [[] [] [] [] [] [] [] []]; vm_compute; intros H;
    (discriminate || (split; [reflexivity | discriminate])).
Qed.

Lemma count_char_app (c : ascii) (a b : string) :
  count_char c (a +:+ b) = (count_char c a + count_char c b)%nat.
Proof.
  induction a as [|x a IH]; [reflexivity|]. rewrite app_cons. simpl.
  rewrite IH. lia.
Qed.

Lemma count_char_none (f : ascii -> bool) (c : ascii) (s : string) :
  (forall x, f x = true -> x <> c) -> str_forall f s = true -> count_char c s = O.
Proof.
  intros Hf. induction s as [|x s IH]; [reflexivity|]. simpl.
  intros [Hx Hs]%andb_prop. rewrite decide_False by now apply Hf.
  now rewrite IH.
Qed.

End EmailFacts.

Lemma re_match_email_shape (s : string) :
  re_match email_pattern s = true <-> email_shape s.
Proof.
  unfold re_match, email_shape. rewrite orb_true_iff. split.
  - intros [H|H].
    + apply accepts_spec, email_pattern_spec in H
        as (l & d & t & -> & H1 & H2 & H3 & H4 & H5 & H6).
      exists l, d, t, EmptyString. rewrite app_nil_r. tauto.
    + destruct (chomp s) as [s'|] eqn:Hc; [|discriminate].
      apply chomp_spec in Hc as ->.
      apply accepts_spec, email_pattern_spec in H
        as (l & d & t & -> & H1 & H2 & H3 & H4 & H5 & H6).
      exists l, d, t, nl. rewrite !app_assoc_s. tauto.
  - intros (l & d & t & tail & -> & [-> | ->] & H1 & H2 & H3 & H4 & H5 & H6).
    + left. rewrite app_nil_r. apply accepts_spec, email_pattern_spec.
      exists l, d, t. tauto.
    + right.
      assert (Hc : chomp (l +:+ "@" +:+ d +:+ "." +:+ t +:+ nl)
                   = Some (l +:+ "@" +:+ d +:+ "." +:+ t)).
      { apply chomp_spec. now rewrite !app_assoc_s. }
      rewrite Hc. apply accepts_spec, email_pattern_spec.
      exists l, d, t. tauto.
Qed.

(** X8. An address passes the check of [validate_email_config] exactly
    when it is a non-empty local part of letters, digits and [._%+-], an
    [@], a non-empty domain of letters, digits, dots and hyphens, a dot,
    and at least two letters, optionally followed by one newline, which
    [$] lets through. *)
Theorem email_check_shape (s : string) :
  re_match email_pattern s = true <-> email_shape s.
Proof.
  split; intros H.
  - now apply re_match_email_shape.
  - now apply re_match_email_shape.
Qed.

Lemma email_check_shape_witness : email_shape "bot@example.org".
Proof. apply (email_check_shape "bot@example.org"). reflexivity. Defined.

(** X9. An address that passes contains exactly one [@], and no
    whitespace apart from the one newline it may end with. *)
Theorem accepted_email_has_one_at (s : string)
    (Hok : re_match email_pattern s = true) :
  count_char "@" s = 1%nat
  /\ exists body tail,
       s = body +:+ tail /\ (tail = EmptyString \/ tail = nl)
       /\ str_forall (fun c => negb (PyStr.is_space c)) body = true.
Proof.
  apply re_match_email_shape in Hok
    as (l & d & t & tail & -> & Htail & _ & Hl & _ & Hd & _ & Ht).
  assert (Hat : forall f, (forall c, f c = true ->
                             local_class c || domain_class c || is_alpha c = true) ->
                forall x, str_forall f x = true ->
                  count_char "@" x = O
                  /\ str_forall (fun c => negb (PyStr.is_space c)) x = true).
  { intros f Hf x Hx. split.
    - apply (count_char_none f); [|exact Hx]. intros c Hc. now apply email_chars, Hf.
    - apply (str_forall_impl f); [|exact Hx]. intros c Hc. now apply email_chars, Hf. }
  destruct (Hat local_class (fun c H => eq_trans (f_equal (fun b => b || _ || _) H) eq_refl)
              l Hl) as [Cl Sl].
  destruct (Hat domain_class) with (x := d) as [Cd Sd]; [|exact Hd|].
  { intros c Hc. rewrite Hc. now rewrite orb_true_r. }
  destruct (Hat is_alpha) with (x := t) as [Ct St]; [|exact Ht|].
  { intros c Hc. rewrite Hc. now rewrite orb_true_r. }
  split.
  - rewrite !count_char_app, Cl, Cd, Ct.
    destruct Htail as [-> | ->]; reflexivity.
  - exists (l +:+ "@" +:+ d +:+ "." +:+ t), tail.
    split; [now rewrite !app_assoc_s|]. split; [exact Htail|].
    rewrite !str_forall_app, Sl, Sd, St. reflexivity.
Qed.

Lemma accepted_email_has_one_at_witness :
  count_char "@" "bot@example.org" = 1%nat.
Proof. exact (proj1 (accepted_email_has_one_at "bot@example.org" eq_refl)). Defined.

(** ** The email settings *)

Section EmailConfigFacts.

Variable py_int : string -> option Z.

Lemma field_truthy_spec (config : email_dict) (f : string) :
  field_truthy config f = true
  <-> exists v, config !! f = Some (Some v) /\ PyStr.truthy v = true.
Proof.
  unfold field_truthy. destruct (config !! f) as [[v|]|]; simpl.
  - split; [eauto | now intros (? & [= <-] & ?)].
  - split; [discriminate | now intros (? & [=] & _)].
  - split; [discriminate | now intros (? & [=] & _)].
Qed.

Lemma field_str_truthy (config : email_dict) (f : string) :
  field_truthy config f = true ->
  exists v, config !! f = Some (Some v) /\ field_str config f = Valid v.
Proof.
  intros (v & Hv & _)%field_truthy_spec. exists v. split; [exact Hv|].
  unfold field_str. now rewrite Hv.
Qed.

Lemma first_missing_spec (config : email_dict) (fields : list string) :
  match first_missing config fields with
  | None => Forall (fun f => field_truthy config f = true) fields
  | Some f =>
      exists pre post,
        fields = pre ++ f :: post
        /\ Forall (fun g => field_truthy config g = true) pre
        /\ field_truthy config f = false
  end.
Proof.
  induction fields as [|f fs IH]; simpl; [constructor|].
  destruct (field_truthy config f) eqn:Hf; simpl.
  - destruct (first_missing config fs) as [g|].
    + destruct IH as (pre & post & -> & Hpre & Hg).
      exists (f :: pre), post. repeat split; [now constructor | exact Hg].
    + now constructor.
  - exists [], fs. repeat split; [constructor | exact Hf].
Qed.

End EmailConfigFacts.

Lemma email_config_cases (py_int : string -> option Z)
    (config : email_dict) :
  (forall c', validate_email_config py_int config = Valid c'
              <-> c' = config /\ email_settings_ok py_int config)
  /\ (forall cls, validate_email_config py_int config <> Uncaught cls).
Proof.
  unfold validate_email_config, email_settings_ok.
  pose proof (first_missing_spec config required_fields) as Hfm.
  destruct (first_missing config required_fields) as [f|].
  - destruct Hfm as (pre & post & Hreq & _ & Hf).
    split; [|discriminate]. intros c'. split; [discriminate|].
    intros (_ & Hall & _). rewrite Hall in Hf; [discriminate|].
    rewrite Hreq. apply elem_of_app. right. left.
  - assert (Hall : forall f, f ∈ required_fields -> field_truthy config f = true).
    { intros f Hf. rewrite Forall_forall in Hfm. now apply Hfm. }
    destruct (field_str_truthy config "sender_email") as (sender & Hs1 & ->).
    { apply Hall. unfold required_fields. set_solver. }
    destruct (field_str_truthy config "recipient_email") as (recipient & Hr1 & Hr2).
    { apply Hall. unfold required_fields. set_solver. }
    destruct (field_str_truthy config "smtp_port") as (port_str & Hp1 & Hp2).
    { apply Hall. unfold required_fields. set_solver. }
    cbn [and_then].
    destruct (re_match email_pattern sender) eqn:Hse; cbn [negb].
    2: { split; [|discriminate]. intros c'. split; [discriminate|].
         intros (_ & _ & s & r & ps & p & Hs & Hshape & _).
         rewrite Hs1 in Hs. injection Hs as <-.
         apply re_match_email_shape in Hshape. congruence. }
    rewrite Hr2. cbn [and_then].
    destruct (re_match email_pattern recipient) eqn:Hre; cbn [negb].
    2: { split; [|discriminate]. intros c'. split; [discriminate|].
         intros (_ & _ & s & r & ps & p & _ & _ & Hr & Hshape & _).
         rewrite Hr1 in Hr. injection Hr as <-.
         apply re_match_email_shape in Hshape. congruence. }
    rewrite Hp2. cbn [and_then].
    destruct (py_int port_str) as [port|] eqn:Hport.
    2: { split; [|discriminate]. intros c'. split; [discriminate|].
         intros (_ & _ & s & r & ps & p & _ & _ & _ & _ & Hp & Hi & _).
         rewrite Hp1 in Hp. injection Hp as <-. congruence. }
    destruct (Z.ltb_spec port 1); cbn [orb].
    { split; [|discriminate]. intros c'. split; [discriminate|].
      intros (_ & _ & s & r & ps & p & _ & _ & _ & _ & Hp & Hi & Hrange).
      rewrite Hp1 in Hp. injection Hp as <-. rewrite Hport in Hi.
      injection Hi as <-. lia. }
    destruct (Z.ltb_spec 65535 port).
    { split; [|discriminate]. intros c'. split; [discriminate|].
      intros (_ & _ & s & r & ps & p & _ & _ & _ & _ & Hp & Hi & Hrange).
      rewrite Hp1 in Hp. injection Hp as <-. rewrite Hport in Hi.
      injection Hi as <-. lia. }
    split; [|discriminate]. intros c'. split.
    + intros [= <-]. split; [reflexivity|]. split; [exact Hall|].
      exists sender, recipient, port_str, port.
      repeat split; try assumption; try lia; now apply re_match_email_shape.
    + now intros [-> _].
Qed.

Lemma email_config_valid_aux (py_int : string -> option Z)
    (config c' : email_dict) :
  validate_email_config py_int config = Valid c' ->
  c' = config /\ email_settings_ok py_int config.
Proof. intros H. now apply (email_config_cases py_int config). Qed.

(** X10. [validate_email_config] returns the settings it was given, and
    does so exactly when all five required fields are present and
    non-empty, both addresses have the accepted shape and the port reads as
    a number from 1 to 65535.  No [KeyError] or [TypeError] escapes: every
    failure is a [ConfigError]. *)
Theorem email_config_valid_iff (py_int : string -> option Z)
    (config : email_dict) :
  (forall c', validate_email_config py_int config = Valid c'
              <-> c' = config /\ email_settings_ok py_int config)
  /\ (forall cls, validate_email_config py_int config <> Uncaught cls).
Proof.
  split.
  - intros c'. apply (email_config_cases py_int config).
  - apply (email_config_cases py_int config).
Qed.

Lemma email_config_valid_iff_witness :
  email_settings_ok int_of_digits (email_from_env demo_environ).
Proof.
  destruct (email_config_valid_iff int_of_digits (email_from_env demo_environ))
    as (H & _).
  apply (H (email_from_env demo_environ)). vm_compute. reflexivity.
Defined.

(** X11. When a required field is missing or empty, the error names the
    first such field in the order server, port, sender, password,
    recipient, and it is raised before any address or port is looked at. *)
Theorem missing_field_is_reported_first (py_int : string -> option Z)
    (config : email_dict) (g : string)
    (Hg : g ∈ required_fields) (Hmissing : field_truthy config g = false) :
  exists pre f post,
    required_fields = pre ++ f :: post
    /\ Forall (fun x => field_truthy config x = true) pre
    /\ field_truthy config f = false
    /\ validate_email_config py_int config
       = ConfigError ("Missing required email configuration: " +:+ f).
Proof.
  unfold validate_email_config.
  pose proof (first_missing_spec config required_fields) as Hfm.
  destruct (first_missing config required_fields) as [f|].
  - destruct Hfm as (pre & post & Hreq & Hpre & Hf).
    exists pre, f, post. repeat split; assumption.
  - rewrite Forall_forall in Hfm. rewrite (Hfm g Hg) in Hmissing. discriminate.
Qed.

Lemma missing_field_is_reported_first_witness :
  exists pre f post,
    required_fields = pre ++ f :: post
    /\ Forall (fun x => field_truthy (email_from_env ∅) x = true) pre
    /\ field_truthy (email_from_env ∅) f = false
    /\ validate_email_config int_of_digits (email_from_env ∅)
       = ConfigError ("Missing required email configuration: " +:+ f).
Proof.
  apply (missing_field_is_reported_first int_of_digits (email_from_env ∅)
           "recipient_email").
  - unfold required_fields. set_solver.
  - vm_compute. reflexivity.
Defined.

(** ** The URL and the settings as a whole *)

(** X12. [validate_url] returns the URL it was given, unchanged, and does
    so exactly when the URL is set and non-empty, [urlparse] finds both a
    scheme and a host in it, and the reachability probe succeeds. *)
Theorem validate_url_valid_iff
    (urlparse : string -> option (string * string)) (head : string -> head_result)
    (url : option string) (u : string) :
  validate_url urlparse head url = Valid u
  <-> url = Some u /\ PyStr.truthy u = true
      /\ (exists scheme netloc,
            urlparse u = Some (scheme, netloc)
            /\ PyStr.truthy scheme = true /\ PyStr.truthy netloc = true)
      /\ head u = HeadOk.
Proof.
  unfold validate_url, check_url_format.
  destruct url as [v|]; cbn [truthy_opt negb].
  2: { split; [discriminate | now intros [[=] _]]. }
  change (default EmptyString (Some v)) with v.
  destruct (PyStr.truthy v) eqn:Hv; cbn [negb].
  2: { split; [discriminate|]. intros ([= ->] & Ht & _). congruence. }
  destruct (urlparse v) as [[scheme netloc]|] eqn:Hp.
  2: { split; [discriminate|].
       intros ([= ->] & _ & (s & n & Hs & _) & _). congruence. }
  destruct (PyStr.truthy scheme) eqn:Hs, (PyStr.truthy netloc) eqn:Hn;
    cbn [andb negb and_then];
    try (split; [discriminate|];
         intros ([= ->] & _ & (s & n & Hsn & Hs' & Hn') & _);
         rewrite Hp in Hsn; injection Hsn as <- <-; congruence).
  destruct (head v) eqn:Hh.
  - split.
    + intros [= <-]. repeat split; eauto.
    + now intros ([= ->] & _).
  - split; [discriminate|]. intros ([= ->] & _ & _ & Hh'). congruence.
  - split; [discriminate|]. intros ([= ->] & _ & _ & Hh'). congruence.
Qed.

Lemma validate_url_valid_iff_witness :
  validate_url demo_urlparse (fun _ => HeadOk) (Some "http://example.org/board")
  = Valid "http://example.org/board".
Proof.
  apply (validate_url_valid_iff demo_urlparse (fun _ => HeadOk)).
  split; [reflexivity|]. split; [reflexivity|]. split; [|reflexivity].
  exists "http", "example.org". repeat split.
Defined.

(** X13. The message "Invalid URL format. Must include http:// or
    https://" never reaches the caller: the [ConfigError] carrying it is
    raised inside the [try] whose [except Exception] replaces it, so a URL
    without scheme or host, like one [urlparse] rejects, is reported as
    "Invalid URL format". *)
Theorem url_format_message_is_masked
    (urlparse : string -> option (string * string)) (head : string -> head_result)
    (url : option string) :
  validate_url urlparse head url
  <> ConfigError "Invalid URL format. Must include http:// or https://"
  /\ (forall u, url = Some u -> PyStr.truthy u = true ->
        (urlparse u = None
         \/ exists scheme netloc,
              urlparse u = Some (scheme, netloc)
              /\ PyStr.truthy scheme && PyStr.truthy netloc = false) ->
        validate_url urlparse head url = ConfigError "Invalid URL format").
Proof.
  unfold validate_url, check_url_format. split.
  - destruct (truthy_opt url); cbn [negb]; [|discriminate].
    destruct (urlparse (default EmptyString url)) as [[scheme netloc]|].
    + destruct (PyStr.truthy scheme && PyStr.truthy netloc); cbn [negb and_then];
        [|discriminate].
      destruct (head (default EmptyString url)); discriminate.
    + discriminate.
  - intros u -> Hu Hbad. cbn [truthy_opt]. rewrite Hu. cbn [negb].
    change (default EmptyString (Some u)) with u.
    destruct Hbad as [-> | (scheme & netloc & -> & ->)]; reflexivity.
Qed.

Lemma url_format_message_is_masked_witness :
  validate_url demo_urlparse (fun _ => HeadOk) (Some "example.org/board")
  = ConfigError "Invalid URL format".
Proof.
  apply (url_format_message_is_masked demo_urlparse (fun _ => HeadOk)
           (Some "example.org/board")) with (u := "example.org/board");
    [reflexivity | reflexivity |].
  right. exists EmptyString, EmptyString. split; reflexivity.
Defined.

Lemma validate_url_valid_aux
    (urlparse : string -> option (string * string)) (head : string -> head_result)
    (url : option string) (u : string) :
  validate_url urlparse head url = Valid u -> url = Some u /\ head u = HeadOk.
Proof.
  unfold validate_url. destruct url as [v|]; cbn [truthy_opt negb]; [|discriminate].
  change (default EmptyString (Some v)) with v.
  destruct (PyStr.truthy v); cbn [negb]; [|discriminate].
  destruct (check_url_format urlparse v) as [[]| |]; cbn [and_then]; try discriminate.
  destruct (head v) eqn:Hh; try discriminate.
  intros [= ->]. split; [reflexivity | exact Hh].
Qed.

(** X14. Settings that [validate_and_set_config] accepts satisfy all of
    the validators at once: the interval lies between 60 and 86400, the
    term list is non-empty and made of good terms, the URL is the one from
    the environment and answered the probe, and the email settings are
    valid. *)
Theorem accepted_settings_are_valid
    (py_int : string -> option Z) (urlparse : string -> option (string * string))
    (head : string -> head_result) (environ : gmap string string) (s : settings)
    (Hvalid : validate_and_set_config py_int urlparse head environ = Valid s) :
  60 <= check_interval (loop_config s) <= 86400
  /\ search_strings (loop_config s) <> []
  /\ Forall good_term (search_strings (loop_config s))
  /\ environ !! "MONITOR_URL" = Some (url (loop_config s))
  /\ head (url (loop_config s)) = HeadOk
  /\ email_config s = email_from_env environ
  /\ email_settings_ok py_int (email_config s)
  /\ seen_matches_path s = "/app/config/seen_matches.json".
Proof.
  unfold validate_and_set_config in Hvalid.
  destruct (validate_url urlparse head (getenv environ "MONITOR_URL"))
    as [u| |] eqn:Hu; try discriminate.
  destruct (validate_search_terms (getenv environ "SEARCH_STRINGS"))
    as [terms| |] eqn:Ht; try discriminate.
  destruct (validate_interval py_int (getenv_or environ "CHECK_INTERVAL" "300"))
    as [n| |] eqn:Hn; try discriminate.
  destruct (validate_email_config py_int (email_from_env environ))
    as [email| |] eqn:He; try discriminate.
  cbn [and_then] in Hvalid. injection Hvalid as <-.
  cbn [loop_config email_config seen_matches_path check_interval search_strings url].
  apply validate_url_valid_aux in Hu as (Hu1 & Hu2).
  apply validated_terms_are_good_aux in Ht as [Ht1 Ht2].
  apply (validated_interval_aux py_int) in Hn as [_ Hn].
  apply (email_config_valid_aux py_int) in He as [-> He].
  unfold getenv in Hu1.
  split; [lia|]. split; [exact Ht1|]. split; [exact Ht2|]. split; [exact Hu1|].
  split; [exact Hu2|]. split; [reflexivity|]. split; [exact He | reflexivity].
Qed.

Lemma accepted_settings_are_valid_witness :
  exists s,
    validate_and_set_config int_of_digits demo_urlparse (fun _ => HeadOk) demo_environ
    = Valid s
    /\ 60 <= check_interval (loop_config s) <= 86400
    /\ search_strings (loop_config s) <> [].
Proof.
  eexists. split; [vm_compute; reflexivity|].
  match goal with
  | |- _ <= check_interval (loop_config ?s) <= _ /\ _ =>
      destruct (accepted_settings_are_valid int_of_digits demo_urlparse
                  (fun _ => HeadOk) demo_environ s) as (H1 & H2 & _)
  end.
  - vm_compute. reflexivity.
  - split; assumption.
Defined.

(** X15. Leaving [CHECK_INTERVAL], [SMTP_SERVER] or [SMTP_PORT] unset has
    the same outcome as setting it to 300, smtp.gmail.com or 587. *)
Theorem unset_options_take_defaults
    (py_int : string -> option Z) (urlparse : string -> option (string * string))
    (head : string -> head_result) (environ : gmap string string) :
  (environ !! "CHECK_INTERVAL" = None ->
   validate_and_set_config py_int urlparse head environ
   = validate_and_set_config py_int urlparse head (<["CHECK_INTERVAL" := "300"]> environ))
  /\ (environ !! "SMTP_SERVER" = None ->
      validate_and_set_config py_int urlparse head environ
      = validate_and_set_config py_int urlparse head
          (<["SMTP_SERVER" := "smtp.gmail.com"]> environ))
  /\ (environ !! "SMTP_PORT" = None ->
      validate_and_set_config py_int urlparse head environ
      = validate_and_set_config py_int urlparse head (<["SMTP_PORT" := "587"]> environ)).
Proof.
  unfold validate_and_set_config, email_from_env, getenv, getenv_or.
  repeat split; intros H;
    rewrite ?lookup_insert_eq, ?lookup_insert_ne by discriminate;
    rewrite ?H; reflexivity.
Qed.

Lemma unset_options_take_defaults_witness :
  validate_and_set_config int_of_digits demo_urlparse (fun _ => HeadOk) demo_environ
  = validate_and_set_config int_of_digits demo_urlparse (fun _ => HeadOk)
      (<["CHECK_INTERVAL" := "300"]> demo_environ).
Proof.
  apply (unset_options_take_defaults int_of_digits demo_urlparse (fun _ => HeadOk)
           demo_environ).
  reflexivity.
Defined.

(** ** Start-up *)

Section StartupFacts.

Variable py_int : string -> option Z.
Variable urlparse : string -> option (string * string).
Variable head : string -> head_result.
Variable get_text : string -> option string.

Lemma load_returns (env : load_env) (st : state) :
  exists st' evs,
    load_seen_matches env st = (Return tt, st', evs)
    /\ sleeps evs = []
    /\ consecutive_errors st' = consecutive_errors st.
Proof.
  destruct env as [mk rd wr], st as [seen file errs].
  unfold load_seen_matches, try_except, bind, makedirs, read_record,
    save_seen_matches, get, emit, set_seen, set_file, ret, raise.
  destruct mk, rd, wr, file; cbn; do 2 eexists; repeat split.
Qed.

Lemma accepted_interval_aux (environ : gmap string string) (s : settings) :
  validate_and_set_config py_int urlparse head environ = Valid s ->
  60 <= check_interval (loop_config s) <= 86400.
Proof.
  unfold validate_and_set_config.
  destruct (validate_url _ _ _); try discriminate.
  destruct (validate_search_terms _); try discriminate.
  destruct (validate_interval py_int _) as [n| |] eqn:Hn; try discriminate.
  destruct (validate_email_config _ _); try discriminate.
  cbn [and_then]. intros [= <-]. cbn.
  now apply (validated_interval_aux py_int) in Hn as [_ Hn].
Qed.

End StartupFacts.

(** X16. When logging cannot be set up or the configuration is rejected,
    [main] logs one error and returns: the store is not loaded, no record
    is written, nothing is fetched or sent, and the loop is never entered. *)
Theorem config_error_never_starts_the_loop
    (py_int : string -> option Z) (urlparse : string -> option (string * string))
    (head : string -> head_result) (get_text : string -> option string)
    (env : startup_env) (envs : list iter_env) (st : state)
    (Hbad : logging_ok env = false
            \/ forall s, validate_and_set_config py_int urlparse head (environ_of env)
                         <> Valid s) :
  main py_int urlparse head get_text env envs st = (st, [EvLog LvlError]).
Proof.
  unfold main, init_monitor.
  destruct (logging_ok env); cbn [negb]; [|reflexivity].
  destruct Hbad as [Hbad|Hbad]; [discriminate|].
  destruct (validate_and_set_config py_int urlparse head (environ_of env)) as [s| |];
    [|reflexivity..].
  now destruct (Hbad s).
Qed.

Lemma config_error_never_starts_the_loop_witness :
  main int_of_digits demo_urlparse (fun _ => HeadOk) Some
    (mkStartupEnv true ∅ (mkLoadEnv true true true))
    [demo_env (FetchOk demo_page) true] demo_state
  = (demo_state, [EvLog LvlError]).
Proof.
  apply config_error_never_starts_the_loop. right. intros s. vm_compute. discriminate.
Defined.

(** X17. With accepted settings, a run of [main] sleeps once per
    iteration, each time for the configured interval or twice it, hence
    for at least 60 and at most 172800 seconds. *)
Theorem validated_run_sleeps_in_range
    (py_int : string -> option Z) (urlparse : string -> option (string * string))
    (head : string -> head_result) (get_text : string -> option string)
    (env : startup_env) (envs : list iter_env) (st : state) (s : settings)
    (Hlog : logging_ok env = true)
    (Hvalid : validate_and_set_config py_int urlparse head (environ_of env) = Valid s) :
  let evs := (main py_int urlparse head get_text env envs st).2 in
  length (sleeps evs) = length envs
  /\ Forall (fun d => d = check_interval (loop_config s)
                      \/ d = check_interval (loop_config s) * 2) (sleeps evs)
  /\ Forall (fun d => 60 <= d <= 172800) (sleeps evs).
Proof.
  cbn zeta. unfold main, init_monitor. rewrite Hlog, Hvalid. cbn [negb].
  destruct (load_returns (load_answers env) st) as (st' & levs & -> & Hls & _).
  rewrite start_monitoring_unfold. cbn zeta.
  pose proof (monitor_loop_returns get_text (loop_config s) envs
                (mkState (seen_matches st') (seen_matches_file st') 0)) as Hret.
  destruct (monitor_loop_sleeps get_text (loop_config s) envs
              (mkState (seen_matches st') (seen_matches_file st') 0)) as [Hf Hl].
  rewrite Hret. cbn [snd].
  rewrite !sleeps_app, Hls.
  change (sleeps (replicate 7 (EvLog LvlInfo))) with (@nil Z).
  change (sleeps (EvLog LvlInfo :: ?l)) with (sleeps l). cbn [app].
  split; [exact Hl|]. split; [exact Hf|].
  pose proof (accepted_interval_aux py_int urlparse head _ _ Hvalid) as Hi.
  eapply Forall_impl; [exact Hf|]. intros d [-> | ->]; lia.
Qed.

Lemma validated_run_sleeps_in_range_witness :
  Forall (fun d => 60 <= d <= 172800)
    (sleeps (main int_of_digits demo_urlparse (fun _ => HeadOk) Some
               (mkStartupEnv true demo_environ (mkLoadEnv true true true))
               (replicate 7 (demo_env FetchTimeout true)) demo_state).2).
Proof.
  eapply (validated_run_sleeps_in_range int_of_digits demo_urlparse (fun _ => HeadOk) Some
            (mkStartupEnv true demo_environ (mkLoadEnv true true true))
            (replicate 7 (demo_env FetchTimeout true)) demo_state);
    [reflexivity | vm_compute; reflexivity].
Defined.

(** ** The store across iterations *)

Section StoreFacts.

Variable get_text : string -> option string.
Variable cfg : config.

(** What an iteration does to the set and, when its write succeeds, to
    the record. *)
Lemma iteration_store (env : iter_env) (st : state) :
  exists new,
    seen_matches (state_of (iteration get_text cfg env st))
    = seen_matches st ∪ list_to_set (fingerprint <$> new)
    /\ (write_ok env = true ->
        seen_matches_file (state_of (iteration get_text cfg env st))
        = (if nonempty new
           then Stored (seen_matches (state_of (iteration get_text cfg env st)))
           else seen_matches_file st)).
Proof.
  destruct (fetch_and_check_cases get_text env st)
    as [H|[H|[(body & H & Hb & Hg)|(body & text & H & Hb & Hg)]]].
  - rewrite (iteration_unexpected _ _ _ _ H), state_of_mk. exists []. cbn.
    split; [set_solver | reflexivity].
  - destruct (fetch_and_check_no_content get_text cfg env st H) as (evs & Hfc & _).
    rewrite (iteration_returned _ _ _ _ _ _ Hfc), state_of_mk.
    destruct (sleep_step_quiet cfg
                (mkState (seen_matches st) (seen_matches_file st)
                   (consecutive_errors st + 1))) as (_ & -> & ->).
    exists []. cbn. split; [set_solver | reflexivity].
  - rewrite (iteration_returned _ _ _ _ _ _
               (fetch_and_check_parse_error _ cfg _ st _ H Hb Hg)), state_of_mk.
    destruct (sleep_step_quiet cfg
                (mkState (seen_matches st) (seen_matches_file st) 0)) as (_ & -> & ->).
    exists []. cbn. split; [set_solver | reflexivity].
  - pose proof (fetch_and_check_text _ cfg _ st _ _ H Hb Hg) as Hfc. cbn zeta in Hfc.
    rewrite (iteration_returned _ _ _ _ _ _ Hfc), state_of_mk.
    match goal with |- context [sleep_step cfg ?s] =>
      destruct (sleep_step_quiet cfg s) as (_ & -> & ->) end.
    cbn [seen_matches seen_matches_file].
    exists (scan_lines (search_strings cfg) (text_lines text) (seen_matches st)).1.
    split; [apply scan_seen|]. intros ->. now rewrite andb_true_r.
Qed.

Lemma iteration_seen_grows (env : iter_env) (st : state) :
  seen_matches st ⊆ seen_matches (state_of (iteration get_text cfg env st)).
Proof. destruct (iteration_store env st) as (new & -> & _). set_solver. Qed.

Lemma iteration_in_sync (env : iter_env) (st : state) :
  write_ok env = true ->
  seen_matches_file st = Stored (seen_matches st) ->
  seen_matches_file (state_of (iteration get_text cfg env st))
  = Stored (seen_matches (state_of (iteration get_text cfg env st))).
Proof.
  intros Hw Hsync. destruct (iteration_store env st) as (new & Hseen & Hfile).
  rewrite (Hfile Hw). destruct new as [|l new]; cbn [nonempty]; [|reflexivity].
  rewrite Hsync, Hseen. f_equal. cbn. set_solver.
Qed.

Lemma monitor_loop_in_sync (envs : list iter_env) (st : state) :
  Forall (fun env => write_ok env = true) envs ->
  seen_matches_file st = Stored (seen_matches st) ->
  seen_matches_file (state_of (monitor_loop get_text cfg envs st))
  = Stored (seen_matches (state_of (monitor_loop get_text cfg envs st))).
Proof.
  revert st. induction envs as [|env rest IH]; intros st Hws Hsync; [exact Hsync|].
  apply Forall_cons in Hws as [Hw Hws].
  rewrite monitor_loop_cons. cbn zeta. rewrite state_of_mk.
  apply IH; [exact Hws|]. now apply iteration_in_sync.
Qed.

End StoreFacts.

(** X18. Fingerprints are only ever added: after any number of
    iterations the seen-matches set contains everything it contained
    before. *)
Theorem seen_matches_only_grows
    (get_text : string -> option string) (cfg : config)
    (envs : list iter_env) (st : state) :
  seen_matches st ⊆ seen_matches (state_of (monitor_loop get_text cfg envs st))
  /\ seen_matches st ⊆ seen_matches (state_of (start_monitoring get_text cfg envs st)).
Proof.
  assert (Hloop : forall l s,
            seen_matches s ⊆ seen_matches (state_of (monitor_loop get_text cfg l s))).
  { induction l as [|env rest IH]; intros s; [reflexivity|].
    rewrite monitor_loop_cons. cbn zeta. rewrite state_of_mk.
    etrans; [apply (iteration_seen_grows get_text cfg env s) | apply IH]. }
  split; [apply Hloop|].
  rewrite start_monitoring_unfold. cbn zeta. rewrite state_of_mk.
  apply (Hloop envs (mkState (seen_matches st) (seen_matches_file st) 0)).
Qed.

Lemma seen_matches_only_grows_witness :
  ({["old entry"]} : gset string)
  ⊆ seen_matches
      (state_of (monitor_loop Some demo_cfg [demo_env (FetchOk demo_page) true]
                   (mkState {["old entry"]} Absent 0))).
Proof.
  exact (proj1 (seen_matches_only_grows Some demo_cfg
                  [demo_env (FetchOk demo_page) true]
                  (mkState {["old entry"]} Absent 0))).
Defined.

(** X19. When the store was loaded without a failure (there was no
    record and the first write succeeded, or the record was read) and
    every write of the run succeeds, the record on disk equals the set in
    memory after the load and after every iteration of the run. *)
Theorem record_follows_memory
    (get_text : string -> option string) (cfg : config)
    (lenv : load_env) (envs : list iter_env) (st : state)
    (Hdirs : makedirs_ok lenv = true)
    (Hload : (seen_matches_file st = Absent /\ load_write_ok lenv = true)
             \/ (exists elems, seen_matches_file st = Stored elems
                               /\ read_ok lenv = true))
    (Hwrites : Forall (fun env => write_ok env = true) envs) :
  let loaded := state_of (load_seen_matches lenv st) in
  seen_matches_file loaded = Stored (seen_matches loaded)
  /\ forall k,
       let after := state_of (start_monitoring get_text cfg (take k envs) loaded) in
       seen_matches_file after = Stored (seen_matches after).
Proof.
  cbn zeta.
  assert (Hsync : seen_matches_file (state_of (load_seen_matches lenv st))
                  = Stored (seen_matches (state_of (load_seen_matches lenv st)))).
  { destruct lenv as [mk rd wr], st as [seen file errs]. cbn in Hdirs, Hload. subst mk.
    destruct Hload as [[-> ->]|(elems & -> & ->)]; reflexivity. }
  split; [exact Hsync|].
  intros k. rewrite start_monitoring_unfold. cbn zeta. rewrite state_of_mk.
  apply monitor_loop_in_sync; [now apply Forall_take | exact Hsync].
Qed.

Lemma record_follows_memory_witness :
  let loaded := state_of (load_seen_matches (mkLoadEnv true true true) demo_state) in
  let after := state_of (start_monitoring Some demo_cfg
                           [demo_env (FetchOk demo_page) true] loaded) in
  seen_matches_file after = Stored (seen_matches after)
  /\ seen_matches after = {["new pickup: alpha widget"]}.
Proof.
  split.
  - refine (proj2 (record_follows_memory Some demo_cfg (mkLoadEnv true true true)
                     [demo_env (FetchOk demo_page) true] demo_state eq_refl
                     (or_introl (conj eq_refl eq_refl)) _) 1%nat).
    repeat constructor.
  - vm_compute. reflexivity.
Defined.

(** X20. What [save_seen_matches] writes is what a later
    [load_seen_matches] reads back, whatever the set in memory is by then,
    provided the write and the read succeed. *)
Theorem save_then_load_round_trip
    (st : state) (env : load_env) (seen_later : gset string) (errs : Z)
    (Hdirs : makedirs_ok env = true) (Hread : read_ok env = true) :
  let saved := state_of (save_seen_matches true st) in
  let loaded :=
    load_seen_matches env (mkState seen_later (seen_matches_file saved) errs) in
  result_of loaded = Return tt
  /\ seen_matches (state_of loaded) = seen_matches st
  /\ seen_matches_file (state_of loaded) = Stored (seen_matches st)
  /\ events_of loaded = [].
Proof.
  destruct env as [mk rd wr], st as [seen file errs0]. cbn in Hdirs, Hread. subst.
  cbn. repeat split.
Qed.

Lemma save_then_load_round_trip_witness :
  seen_matches
    (state_of (load_seen_matches (mkLoadEnv true true false)
                 (mkState ∅
                    (seen_matches_file
                       (state_of (save_seen_matches true
                                    (mkState {["foo bar"]} Absent 0)))) 0)))
  = {["foo bar"]}.
Proof.
  destruct (save_then_load_round_trip (mkState {["foo bar"]} Absent 0)
              (mkLoadEnv true true false) ∅ 0 eq_refl eq_refl) as (_ & H & _).
  exact H.
Defined.

Lemma sleep_step_zero (cfg : config) (seen : gset string) (file : file_state) :
  sleep_step cfg (mkState seen file 0)
  = (Return tt, mkState seen file 0, [EvSleep (check_interval cfg)]).
Proof. reflexivity. Qed.

(** X21. A notification that failed to send is not tried again: when the
    next iteration fetches the same page, it finds nothing new, saves and
    sends nothing, and resets the counter. *)
Theorem failed_send_is_not_retried
    (get_text : string -> option string) (cfg : config)
    (env1 env2 : iter_env) (st : state) (body : string)
    (Hfetch1 : fetch_res env1 = FetchOk body)
    (Hfetch2 : fetch_res env2 = FetchOk body)
    (Hbody : PyStr.truthy body = true) :
  let st1 := state_of (iteration get_text cfg env1 st) in
  let r2 := iteration get_text cfg env2 st1 in
  Forall (fun e => is_save e = false /\ is_send e = false) (events_of r2)
  /\ consecutive_errors (state_of r2) = 0
  /\ seen_matches (state_of r2) = seen_matches st1.
Proof.
  cbn zeta. destruct (get_text body) as [text|] eqn:Hg.
  - pose proof (fetch_and_check_text _ cfg _ st _ _ Hfetch1 Hbody Hg) as Hfc1.
    cbn zeta in Hfc1. rewrite (iteration_returned _ _ _ _ _ _ Hfc1), state_of_mk.
    match goal with |- context [state_of (sleep_step cfg ?s)] =>
      destruct (sleep_step_quiet cfg s) as (_ & Hs1 & _);
      set (st1 := state_of (sleep_step cfg s)) in * end.
    cbn [seen_matches] in Hs1.
    pose proof (fetch_and_check_text _ cfg _ st1 _ _ Hfetch2 Hbody Hg) as Hfc2.
    cbn zeta in Hfc2. rewrite Hs1, scan_twice in Hfc2.
    cbn [fst snd nonempty andb check_events send_events app] in Hfc2.
    rewrite (iteration_returned _ _ _ _ _ _ Hfc2), state_of_mk, events_of_mk.
    rewrite sleep_step_zero, state_of_mk, events_of_mk.
    cbn. repeat split; [repeat constructor | now symmetry].
  - pose proof (fetch_and_check_parse_error _ cfg _ st _ Hfetch1 Hbody Hg) as Hfc1.
    rewrite (iteration_returned _ _ _ _ _ _ Hfc1), state_of_mk.
    rewrite sleep_step_zero, state_of_mk.
    rewrite (iteration_returned _ _ _ _ _ _
               (fetch_and_check_parse_error _ cfg _ _ _ Hfetch2 Hbody Hg)).
    rewrite state_of_mk, events_of_mk.
    rewrite sleep_step_zero, state_of_mk, events_of_mk.
    cbn. repeat split; repeat constructor.
Qed.

Lemma failed_send_is_not_retried_witness :
  Forall (fun e => is_save e = false /\ is_send e = false)
    (events_of (iteration Some demo_cfg (demo_env (FetchOk demo_page) true)
                  (state_of (iteration Some demo_cfg
                               (demo_env (FetchOk demo_page) false) demo_state)))).
Proof.
  apply (failed_send_is_not_retried Some demo_cfg
           (demo_env (FetchOk demo_page) false) (demo_env (FetchOk demo_page) true)
           demo_state demo_page eq_refl eq_refl eq_refl).
Defined.

(** ** The notification *)

Section NotifyFacts.

Lemma length_app_s (a b : string) :
  String.length (a +:+ b) = (String.length a + String.length b)%nat.
Proof.
  induction a as [|c a IH]; [reflexivity|]. rewrite app_cons. simpl. now rewrite IH.
Qed.

Lemma str_take_length (n : nat) (s : string) :
  String.length (str_take n s) = Nat.min n (String.length s).
Proof.
  revert s. induction n as [|n IH]; intros [|c s]; simpl; auto.
Qed.

Lemma join_occurs (sep x : string) (l : list string) :
  x ∈ l -> occurs_in x (PyStr.join sep l).
Proof.
  unfold occurs_in. induction l as [|w ws IH]; intros Hin; [inversion Hin|].
  destruct ws as [|w' ws].
  - apply list_elem_of_singleton in Hin as ->.
    exists EmptyString, EmptyString. cbn [PyStr.join]. now rewrite app_nil, app_nil_r.
  - change (PyStr.join sep (w :: w' :: ws))
      with (w +:+ sep +:+ PyStr.join sep (w' :: ws)).
    apply elem_of_cons in Hin as [->|Hin].
    + exists EmptyString, (sep +:+ PyStr.join sep (w' :: ws)). now rewrite app_nil.
    + destruct (IH Hin) as (pre & post & ->).
      exists (w +:+ sep +:+ pre), post. now rewrite !app_assoc_s.
Qed.

End NotifyFacts.

(** X22. The subject of a notification is "New Pick Thread: " followed
    by the first new line when that line has at most 100 characters, and
    by its first 100 characters and "..." otherwise; it never exceeds 120
    characters. *)
Theorem email_title_is_bounded (first : string) :
  (String.length (email_title first) <= 120)%nat
  /\ ((String.length first <= 100)%nat ->
      email_title first = "New Pick Thread: " +:+ first)
  /\ ((100 < String.length first)%nat ->
      email_title first = "New Pick Thread: " +:+ str_take 100 first +:+ "..."
      /\ String.length (email_title first) = 120%nat).
Proof.
  unfold email_title.
  destruct (Nat.ltb_spec 100 (String.length first)) as [Hlong|Hshort].
  - rewrite !length_app_s, str_take_length.
    change (String.length "New Pick Thread: ") with 17%nat.
    change (String.length "...") with 3%nat.
    repeat split; try lia.
  - rewrite length_app_s. change (String.length "New Pick Thread: ") with 17%nat.
    repeat split; try lia.
Qed.

Lemma email_title_is_bounded_witness :
  email_title "New Pickup: Alpha Widget" = "New Pick Thread: New Pickup: Alpha Widget".
Proof.
  apply (email_title_is_bounded "New Pickup: Alpha Widget"). simpl. lia.
Defined.

(** X23. The body of a notification contains every new line and ends
    with the monitored URL. *)
Theorem email_body_lists_every_line (cfg : config) (lines : list string)
    (line : string) (Hin : line ∈ lines) :
  occurs_in line (email_body cfg lines)
  /\ exists pre, email_body cfg lines = pre +:+ url cfg.
Proof.
  unfold email_body. split.
  - destruct (join_occurs (nl +:+ nl) line lines Hin) as (pre & post & ->).
    exists ("Found new thread(s) with your search terms:" +:+ nl +:+ nl +:+ pre),
           (post +:+ nl +:+ nl +:+ "View thread(s) at: " +:+ url cfg).
    now rewrite !app_assoc_s.
  - exists ("Found new thread(s) with your search terms:" +:+ nl +:+ nl
            +:+ PyStr.join (nl +:+ nl) lines +:+ nl +:+ nl +:+ "View thread(s) at: ").
    now rewrite !app_assoc_s.
Qed.

Lemma email_body_lists_every_line_witness :
  occurs_in "New Pickup: Alpha Widget"
    (email_body demo_cfg ["Older line"; "New Pickup: Alpha Widget"]).
Proof.
  apply (email_body_lists_every_line demo_cfg
           ["Older line"; "New Pickup: Alpha Widget"]).
  right. left.
Defined.

Section NotifyFacts.

Variable cfg : config.

Lemma no_send_filter (l : list event) :
  Forall (fun e => is_send e = false) l -> List.filter is_send l = [].
Proof.
  induction 1 as [|e l He _ IH]; [reflexivity|]. cbn. now rewrite He.
Qed.

Lemma no_send_elem (l : list event) (title body : string) (ok : bool) :
  Forall (fun e => is_send e = false) l -> EvSend title body ok ∉ l.
Proof.
  intros Hall Hin. rewrite Forall_forall in Hall.
  specialize (Hall _ Hin). discriminate.
Qed.

Lemma check_events_no_send (new : list string) (seen' : gset string) (w : bool) :
  Forall (fun e => is_send e = false) (check_events new seen' w).
Proof. destruct new, w; repeat constructor. Qed.

Lemma sleep_step_no_send (st : state) :
  Forall (fun e => is_send e = false) (events_of (sleep_step cfg st)).
Proof.
  eapply Forall_impl; [apply sleep_step_quiet|]. now intros e [_ H].
Qed.

End NotifyFacts.

(** X24. An iteration sends at most one notification, and the one it
    sends is built from the whole list of new lines that the keyword
    check returned for the fetched page: the title from the first line,
    the body from all of them.  The list handed to
    [send_email_notification] is never empty, so its [IndexError] on an
    empty list does not arise in the loop. *)
Theorem notification_covers_whole_batch
    (get_text : string -> option string) (cfg : config)
    (env : iter_env) (st : state) :
  let evs := events_of (iteration get_text cfg env st) in
  (length (List.filter is_send evs) <= 1)%nat
  /\ (forall title body ok,
        EvSend title body ok ∈ evs ->
        exists page text first rest,
          fetch_res env = FetchOk page
          /\ get_text page = Some text
          /\ (scan_lines (search_strings cfg) (text_lines text) (seen_matches st)).1
             = first :: rest
          /\ title = email_title first
          /\ body = email_body cfg (first :: rest)
          /\ ok = send_ok env)
  /\ result_of (fetch_and_check get_text cfg env st) <> Raise IndexError.
Proof.
  cbn zeta.
  destruct (fetch_and_check_cases get_text env st)
    as [H|[H|[(page & H & Hb & Hg)|(page & text & H & Hb & Hg)]]].
  - rewrite (iteration_unexpected _ _ _ _ H), events_of_mk.
    rewrite (fetch_and_check_unexpected _ _ _ _ H), result_of_mk.
    split; [cbn; lia|]. split; [|discriminate].
    intros title body ok Hin. exfalso. revert Hin.
    apply no_send_elem. repeat constructor.
  - destruct (fetch_and_check_no_content get_text cfg env st H) as (evs & Hfc & Hevs).
    rewrite (iteration_returned _ _ _ _ _ _ Hfc), events_of_mk, Hfc, result_of_mk.
    assert (Hall : Forall (fun e => is_send e = false)
                     (evs ++ events_of (sleep_step cfg
                        (mkState (seen_matches st) (seen_matches_file st)
                           (consecutive_errors st + 1))))).
    { apply Forall_app. split; [|apply sleep_step_no_send].
      destruct Hevs as [->| ->]; repeat constructor. }
    rewrite (no_send_filter _ Hall).
    split; [cbn; lia|]. split; [|discriminate].
    intros title body ok Hin. exfalso. revert Hin. now apply no_send_elem.
  - pose proof (fetch_and_check_parse_error _ cfg _ st _ H Hb Hg) as Hfc.
    rewrite (iteration_returned _ _ _ _ _ _ Hfc), events_of_mk, Hfc, result_of_mk.
    assert (Hall : Forall (fun e => is_send e = false)
                     ([EvLog LvlError] ++ events_of (sleep_step cfg
                        (mkState (seen_matches st) (seen_matches_file st) 0)))).
    { apply Forall_app. split; [repeat constructor | apply sleep_step_no_send]. }
    rewrite (no_send_filter _ Hall).
    split; [cbn; lia|]. split; [|discriminate].
    intros title body ok Hin. exfalso. revert Hin. now apply no_send_elem.
  - pose proof (fetch_and_check_text _ cfg _ st _ _ H Hb Hg) as Hfc. cbn zeta in Hfc.
    rewrite (iteration_returned _ _ _ _ _ _ Hfc), events_of_mk, Hfc, result_of_mk.
    match goal with |- context [sleep_step cfg ?s] =>
      pose proof (sleep_step_no_send cfg s) as Hsl;
      generalize dependent (events_of (sleep_step cfg s)) end.
    intros sl Hsl.
    pose proof (check_events_no_send
                  (scan_lines (search_strings cfg) (text_lines text) (seen_matches st)).1
                  (scan_lines (search_strings cfg) (text_lines text) (seen_matches st)).2
                  (write_ok env)) as Hck.
    rewrite !List.filter_app, (no_send_filter _ Hck), (no_send_filter _ Hsl).
    split; [|split; [|discriminate]].
    + destruct (scan_lines (search_strings cfg) (text_lines text) (seen_matches st)).1;
        cbn; lia.
    + intros title body ok [[Hin|Hin]%elem_of_app|Hin]%elem_of_app.
      * exfalso. revert Hin. now apply no_send_elem.
      * exists page, text.
        destruct (scan_lines (search_strings cfg) (text_lines text) (seen_matches st)).1
          as [|first rest]; [inversion Hin|].
        exists first, rest. cbn [send_events] in Hin.
        apply elem_of_cons in Hin as [[= -> -> ->]|Hin].
        -- repeat split; assumption.
        -- apply list_elem_of_singleton in Hin. discriminate.
      * exfalso. revert Hin. now apply no_send_elem.
Qed.

(** X25. A page that cannot be parsed counts as a clean check: one error
    is logged, the counter is reset to zero and the sleep is the normal
    interval.  A fetch that returns an empty body counts as a failure: the
    counter goes up by one and nothing is logged. *)
Theorem degenerate_pages
    (get_text : string -> option string) (cfg : config)
    (env : iter_env) (st : state) (body : string)
    (Hfetch : fetch_res env = FetchOk body) :
  (PyStr.truthy body = true -> get_text body = None ->
   iteration get_text cfg env st
   = (Return tt, mkState (seen_matches st) (seen_matches_file st) 0,
      [EvLog LvlError; EvSleep (check_interval cfg)]))
  /\ (body = EmptyString ->
      fetch_and_check get_text cfg env st
      = (Return tt,
         mkState (seen_matches st) (seen_matches_file st) (consecutive_errors st + 1),
         [])).
Proof.
  split.
  - intros Hb Hg.
    rewrite (iteration_returned _ _ _ _ _ _
               (fetch_and_check_parse_error _ cfg _ st _ Hfetch Hb Hg)).
    now rewrite sleep_step_zero, state_of_mk, events_of_mk.
  - intros ->. unfold fetch_and_check, bind, fetch_page_content.
    now rewrite Hfetch.
Qed.

Lemma degenerate_pages_witness :
  iteration (fun _ => None) demo_cfg (demo_env (FetchOk demo_page) true)
    (mkState ∅ Absent 4)
  = (Return tt, mkState ∅ Absent 0, [EvLog LvlError; EvSleep 300]).
Proof.
  apply (degenerate_pages (fun _ => None) demo_cfg
           (demo_env (FetchOk demo_page) true) (mkState ∅ Absent 4) demo_page eq_refl);
    reflexivity.
Defined.
